(** * go-change: online change detection (change.go)

    A shallow embedding of [Detector.Check], [NewStream] and [Stream.Push]
    of package [change], and the properties of its specification; with
    them [Stream.Window], [Stats.Stddev] and the cases of the package's
    test [TestDetectChange] (change_test.go).

    - [float64] is IEEE 754 binary64: Rocq's primitive [float], with the
      operators of [PrimFloat] (each operation rounded on its own, as the Go
      compiler does on amd64, where no multiply-add is fused).
    - [int] is the 64-bit signed integer: [Z] with the wrap-around written
      out ([wrap]).
    - slices are views [(array, offset, length)] into a store of arrays; an
      index or slice expression out of range and a [make] of negative length
      panic, which the [outcome] type records.
    - [math.Sqrt] is the correctly rounded square root of IEEE 754:
      [PrimFloat.sqrt].
    - [onlinestats.Welch] belongs to another module; it is a parameter
      [Welch] of everything that calls it, assumed to be a function of the
      two summaries that returns. *)

From Stdlib Require Import ZArith List Lia Bool Floats.
From stdpp Require Import base list.

Local Open Scope Z_scope.
Set Warnings "-inexact-float".

(** ** Machine integers *)

Definition int_min : Z := - 2 ^ 63.
Definition int_max : Z := 2 ^ 63 - 1.

(** Two's complement reduction of an exact result to 64 bits. *)
Definition wrap (z : Z) : Z := (z + 2 ^ 63) mod 2 ^ 64 - 2 ^ 63.

Definition int_add (a b : Z) : Z := wrap (a + b).
Definition int_sub (a b : Z) : Z := wrap (a - b).

Definition is_int (z : Z) : Prop := int_min <= z <= int_max.

(** ** Floating point *)

Abbreviation float64 := PrimFloat.float.

(** The conversion [float64(i)] of an integer: the nearest binary64, ties to
    even. *)
Definition float_of_int (i : Z) : float64 :=
  SF2Prim (binary_normalize prec emax i 0 false).

(** ** Outcomes and the store *)

Inductive outcome (A : Type) : Type :=
| Returns (a : A)
| Panics.
Arguments Returns {A} a.
Arguments Panics {A}.

Abbreviation loc := nat.

(** The store: the backing arrays allocated so far. *)
Abbreviation heap := (list (list float64)).

Record slice := { arr : loc; off : nat; len : nat }.

(** A computation reads and updates the store, and returns or panics. *)
Definition M (A : Type) : Type := heap -> outcome (A * heap).

Definition ret {A} (a : A) : M A := fun h => Returns (a, h).

Definition bind {A B} (c : M A) (k : A -> M B) : M B :=
  fun h => match c h with
           | Returns (a, h') => k a h'
           | Panics => Panics
           end.

Notation "'do' x <- c ; k" := (bind c (fun x => k))
  (at level 10, x name, c at level 100, k at level 200).
Notation "c ;; k" := (bind c (fun _ => k))
  (at level 100, k at level 200, right associativity).

(** [make([]float64, n)]: a fresh zeroed array, at a location no slice
    refers to yet. *)
Definition make (n : Z) : M slice :=
  fun h => if n <? 0 then Panics
           else Returns ({| arr := length h; off := 0; len := Z.to_nat n |},
                         h ++ [replicate (Z.to_nat n) 0%float]).

Definition in_bounds (s : slice) (i : Z) : bool :=
  (0 <=? i) && (i <? Z.of_nat (len s)).

(** [s[i]] as an expression. *)
Definition index (s : slice) (i : Z) : M float64 :=
  fun h => if in_bounds s i then
             match h !! arr s with
             | Some a => match a !! (off s + Z.to_nat i)%nat with
                         | Some v => Returns (v, h)
                         | None => Panics
                         end
             | None => Panics
             end
           else Panics.

(** [s[i] = v]. *)
Definition assign (s : slice) (i : Z) (v : float64) : M unit :=
  fun h => if in_bounds s i then
             match h !! arr s with
             | Some a => Returns (tt, <[arr s := <[(off s + Z.to_nat i)%nat := v]> a]> h)
             | None => Panics
             end
           else Panics.

(** [s[lo:]]. *)
Definition slice_from (s : slice) (lo : Z) : M slice :=
  fun h => if (0 <=? lo) && (lo <=? Z.of_nat (len s)) then
             Returns ({| arr := arr s; off := (off s + Z.to_nat lo)%nat;
                          len := (len s - Z.to_nat lo)%nat |}, h)
           else Panics.

(** [copy(dst, src)]: the source elements are taken before any is written,
    so overlapping slices behave as with memmove. *)
Definition copy (dst src : slice) : M Z :=
  fun h => match h !! arr src, h !! arr dst with
           | Some a_src, Some a_dst =>
               let k := Nat.min (len dst) (len src) in
               let vals := take k (drop (off src) a_src) in
               Returns (Z.of_nat k,
                        <[arr dst := take (off dst) a_dst ++ vals
                                       ++ drop (off dst + k)%nat a_dst]> h)
           | _, _ => Panics
           end.

(** A loop over a fixed list of values of the loop variable. *)
Fixpoint for_each {A S : Type} (xs : list A) (body : A -> S -> M S) (s : S) : M S :=
  match xs with
  | [] => ret s
  | x :: xs' => do s' <- body x s; for_each xs' body s'
  end.

(** ** Data model *)

Record Stats := { Mean : float64; Var : float64; Len : Z }.

Record ChangePoint := {
  Index : Z;
  Difference : float64;
  Confidence : float64;
  Before : Stats;
  After : Stats
}.

Definition DefaultMinSampleSize : Z := 30.

Record Detector := { MinSampleSize : Z; MinConfidence : float64 }.

(** The variables of [Check] that its second loop updates. *)
Record scan := {
  maxsb : float64;
  maxsbIdx : Z;
  before : Stats;
  after : Stats
}.

Definition zero_Stats : Stats := {| Mean := 0; Var := 0; Len := 0 |}.

(** [func (s Stats) Stddev() float64]. *)
Definition Stddev (s : Stats) : float64 := sqrt (Var s).

Definition scan0 : scan :=
  {| maxsb := 0; maxsbIdx := 0; before := zero_Stats; after := zero_Stats |}.

Definition minSampleSize_of (d : Detector) : Z :=
  if MinSampleSize d =? 0 then DefaultMinSampleSize else MinSampleSize d.

Section Detector.

(** [onlinestats.Welch], applied to the two summaries. *)
Variable Welch : Stats -> Stats -> float64.

(** The first loop of [Check]: [for i, v := range window]. *)
Definition accumulate (window cumsum cumsumsq : slice) (i : Z)
    (acc : float64 * float64) : M (float64 * float64) :=
  let '(sum, sumsq) := acc in
  do v <- index window i;
  let sum := (sum + v)%float in
  let sumsq := (sumsq + v * v)%float in
  assign cumsum i sum;;
  assign cumsumsq i sumsq;;
  ret (sum, sumsq).

(** The body of the second loop, at split length [l]. *)
Definition split_at (n : Z) (cumsum cumsumsq : slice) (sum sumsq : float64)
    (l : Z) (st : scan) : M scan :=
  let lidx := int_sub l 1 in
  let n1 := float_of_int l in
  do c <- index cumsum lidx;
  let mean1 := (c / n1)%float in
  let n2 := float_of_int (int_sub n l) in
  let sum2 := (sum - c)%float in
  let mean2 := (sum2 / n2)%float in
  let sb := (((n1 * n2) / (n1 + n2)) * (mean1 - mean2) * (mean1 - mean2))%float in
  if (maxsb st <? sb)%float then
    do q <- index cumsumsq lidx;
    let var1 := ((q - (c * c) / n1) / (n1 - 1))%float in
    let var2 := (((sumsq - q) - (sum2 * sum2) / n2) / (n2 - 1))%float in
    ret {| maxsb := sb; maxsbIdx := l;
           before := {| Mean := mean1; Var := var1; Len := l |};
           after := {| Mean := mean2; Var := var2; Len := int_sub n l |} |}
  else ret st.

(** [func (d *Detector) Check(window []float64) *ChangePoint].  The
    receiver is only read, so it is passed by value; [nil] is [None].  The
    loop variable [l] stays below its bound, so [l++] cannot overflow and
    the values of [l] are those of [seqZ]. *)
Definition Detector_Check (d : Detector) (window : slice) : M (option ChangePoint) :=
  let n := Z.of_nat (len window) in
  do cumsum <- make n;
  do cumsumsq <- make n;
  do sums <- for_each (seqZ 0 n) (accumulate window cumsum cumsumsq)
               (0%float, 0%float);
  let '(sum, sumsq) := sums in
  let minSampleSize := minSampleSize_of d in
  let bound := int_add (int_sub n minSampleSize) 1 in
  do st <- for_each (seqZ minSampleSize (bound - minSampleSize))
             (split_at n cumsum cumsumsq sum sumsq) scan0;
  let conf := if 0 <? Len (before st) then Welch (before st) (after st) else 0%float in
  if (conf <=? MinConfidence d)%float then ret None
  else ret (Some {| Index := maxsbIdx st;
                    Difference := (Mean (after st) - Mean (before st))%float;
                    Confidence := conf;
                    Before := before st;
                    After := after st |}).

(** [Check] on a window that is the whole of the only array of the store. *)
Definition check_window (d : Detector) (window : list float64)
    : outcome (option ChangePoint) :=
  match Detector_Check d {| arr := 0%nat; off := 0; len := length window |} [window] with
  | Returns (r, _) => Returns r
  | Panics => Panics
  end.

End Detector.

(** ** The same computation on values

    [detect] is [Check] with the window and the two arrays of cumulative
    sums as lists; [Detector_Check_detect] below shows that [Detector_Check]
    computes it and leaves the two arrays behind in the store. *)

(** The cumulative sums of [term v] over [w], started at [acc]. *)
Fixpoint sums_from (term : float64 -> float64) (acc : float64) (w : list float64)
    : list float64 :=
  match w with
  | [] => []
  | v :: w' => let acc' := (acc + term v)%float in acc' :: sums_from term acc' w'
  end.

Fixpoint total_from (term : float64 -> float64) (acc : float64) (w : list float64)
    : float64 :=
  match w with
  | [] => acc
  | v :: w' => total_from term (acc + term v)%float w'
  end.

Definition square (v : float64) : float64 := (v * v)%float.

Definition cumsum_of (w : list float64) : list float64 := sums_from id 0%float w.
Definition cumsumsq_of (w : list float64) : list float64 := sums_from square 0%float w.
Definition sum_of (w : list float64) : float64 := total_from id 0%float w.
Definition sumsq_of (w : list float64) : float64 := total_from square 0%float w.

(** [a[i]] on a list. *)
Definition at_index (a : list float64) (i : Z) : outcome float64 :=
  if (0 <=? i) && (i <? Z.of_nat (length a)) then
    match a !! Z.to_nat i with
    | Some v => Returns v
    | None => Panics
    end
  else Panics.

(** The between-class scatter of the split of length [l], from the entry
    [c] of the cumulative sums at [l - 1]. *)
Definition scatter (n : Z) (sum : float64) (l : Z) (c : float64) : float64 :=
  let n1 := float_of_int l in
  let n2 := float_of_int (int_sub n l) in
  let mean1 := (c / n1)%float in
  let mean2 := ((sum - c) / n2)%float in
  (((n1 * n2) / (n1 + n2)) * (mean1 - mean2) * (mean1 - mean2))%float.

(** The state the second loop moves to when the split of length [l] wins. *)
Definition winner (n : Z) (sum sumsq : float64) (l : Z) (c q : float64) : scan :=
  let n1 := float_of_int l in
  let n2 := float_of_int (int_sub n l) in
  let sum2 := (sum - c)%float in
  {| maxsb := scatter n sum l c;
     maxsbIdx := l;
     before := {| Mean := (c / n1)%float;
                  Var := ((q - (c * c) / n1) / (n1 - 1))%float;
                  Len := l |};
     after := {| Mean := (sum2 / n2)%float;
                 Var := (((sumsq - q) - (sum2 * sum2) / n2) / (n2 - 1))%float;
                 Len := int_sub n l |} |}.

Definition split_step (n : Z) (cs cq : list float64) (sum sumsq : float64)
    (l : Z) (st : scan) : outcome scan :=
  match at_index cs (int_sub l 1) with
  | Panics => Panics
  | Returns c =>
      if (maxsb st <? scatter n sum l c)%float then
        match at_index cq (int_sub l 1) with
        | Panics => Panics
        | Returns q => Returns (winner n sum sumsq l c q)
        end
      else Returns st
  end.

Fixpoint fold_outcome {A S : Type} (step : A -> S -> outcome S) (xs : list A) (s : S)
    : outcome S :=
  match xs with
  | [] => Returns s
  | x :: xs' => match step x s with
                | Panics => Panics
                | Returns s' => fold_outcome step xs' s'
                end
  end.

(** The values of the loop variable of the second loop. *)
Definition candidates (n m : Z) : list Z :=
  seqZ m (int_add (int_sub n m) 1 - m).

(** The second loop, on the window. *)
Definition search (m : Z) (w : list float64) : outcome scan :=
  let n := Z.of_nat (length w) in
  fold_outcome (split_step n (cumsum_of w) (cumsumsq_of w) (sum_of w) (sumsq_of w))
    (candidates n m) scan0.

Section Detect.

Variable Welch : Stats -> Stats -> float64.

(** The confidence [Check] compares with the threshold. *)
Definition confidence (st : scan) : float64 :=
  if 0 <? Len (before st) then Welch (before st) (after st) else 0%float.

(** The end of [Check], from the state the second loop leaves. *)
Definition conclude (d : Detector) (st : scan) : option ChangePoint :=
  if (confidence st <=? MinConfidence d)%float then None
  else Some {| Index := maxsbIdx st;
               Difference := (Mean (after st) - Mean (before st))%float;
               Confidence := confidence st;
               Before := before st;
               After := after st |}.

Definition detect (d : Detector) (w : list float64) : outcome (option ChangePoint) :=
  match search (minSampleSize_of d) w with
  | Panics => Panics
  | Returns st => Returns (conclude d st)
  end.

End Detect.

(** ** Stream *)

Record Stream := {
  windowSize : Z;
  blockSize : Z;
  data : slice;
  items : Z;
  buffer : slice;
  bufidx : Z;
  detector : Detector
}.

(** [NewStream(windowSize, minSample, blockSize, confidence)]. *)
Definition NewStream (windowSize minSample blockSize : Z) (confidence : float64)
    : M Stream :=
  do data <- make windowSize;
  do buffer <- make blockSize;
  ret {| windowSize := windowSize;
         blockSize := blockSize;
         data := data;
         items := 0;
         buffer := buffer;
         bufidx := 0;
         detector := {| MinSampleSize := minSample; MinConfidence := confidence |} |}.

Definition set_counters (s : Stream) (bufidx items : Z) : Stream :=
  {| windowSize := windowSize s; blockSize := blockSize s; data := data s;
     items := items; buffer := buffer s; bufidx := bufidx;
     detector := detector s |}.

Section Stream.

Variable Welch : Stats -> Stats -> float64.

(** [func (s *Stream) Push(item float64) *ChangePoint]: the stream after
    the call, and the result. *)
Definition Stream_Push (s : Stream) (item : float64) : M (Stream * option ChangePoint) :=
  assign (buffer s) (bufidx s) item;;
  let s := set_counters s (int_add (bufidx s) 1) (int_add (items s) 1) in
  if bufidx s <? blockSize s then ret (s, None)
  else
    do dst <- slice_from (data s) 0;
    do src <- slice_from (data s) (blockSize s);
    copy dst src;;
    do tail <- slice_from (data s) (int_sub (windowSize s) (blockSize s));
    copy tail (buffer s);;
    let s := set_counters s 0 (items s) in
    if items s <? windowSize s then ret (s, None)
    else
      do r <- Detector_Check Welch (detector s) (data s);
      ret (s, r).

(** [func (s *Stream) Window() []float64]. *)
Definition Stream_Window (s : Stream) : slice := data s.

(** Successive calls of [Push], with their results in order. *)
Fixpoint push_all (s : Stream) (xs : list float64)
    : M (Stream * list (option ChangePoint)) :=
  match xs with
  | [] => ret (s, [])
  | x :: xs' =>
      do sr <- Stream_Push s x;
      do srs <- push_all (fst sr) xs';
      ret (fst srs, snd sr :: snd srs)
  end.

(** A stream made by [NewStream] in an empty store, fed with [xs]. *)
Definition stream_results (windowSize minSample blockSize : Z) (confidence : float64)
    (xs : list float64) : outcome (list (option ChangePoint)) :=
  match (do s <- NewStream windowSize minSample blockSize confidence;
         push_all s xs) [] with
  | Returns (sr, _) => Returns (snd sr)
  | Panics => Panics
  end.

End Stream.

(** A result with the store put back. *)
Definition lift {A} (h : heap) (o : outcome A) : outcome (A * heap) :=
  match o with Returns a => Returns (a, h) | Panics => Panics end.

(** A stand-in for the significance test that reports the same confidence
    for every pair of summaries. *)
Definition fixed_confidence (c : float64) : Stats -> Stats -> float64 :=
  fun _ _ => c.

(** The slice [s] is within an array of the store and holds the values [w]. *)
Definition holds (h : heap) (s : slice) (w : list float64) : Prop :=
  exists a, h !! arr s = Some a /\ take (len s) (drop (off s) a) = w
            /\ length w = len s.

(** ** The split search in the words of the specification *)

(** The sum of the first [l] values of the window, added in order. *)
Definition prefix_sum (w : list float64) (l : Z) : float64 :=
  sum_of (take (Z.to_nat l) w).

Definition prefix_sumsq (w : list float64) (l : Z) : float64 :=
  sumsq_of (take (Z.to_nat l) w).

(** The means of the segments [[0, l)] and [[l, n)]. *)
Definition mean_before (w : list float64) (l : Z) : float64 :=
  (prefix_sum w l / float_of_int l)%float.

Definition mean_after (w : list float64) (l : Z) : float64 :=
  ((sum_of w - prefix_sum w l) / float_of_int (Z.of_nat (length w) - l))%float.

(** [sb = (n1*n2/(n1+n2)) * (mean1 - mean2)^2], the square taken as the
    source multiplies. *)
Definition between_class_scatter (w : list float64) (l : Z) : float64 :=
  let n1 := float_of_int l in
  let n2 := float_of_int (Z.of_nat (length w) - l) in
  (((n1 * n2) / (n1 + n2)) * (mean_before w l - mean_after w l)
     * (mean_before w l - mean_after w l))%float.

(** The split lengths [l] in [[m, n - m]]. *)
Definition candidate (w : list float64) (m l : Z) : Prop :=
  m <= l <= Z.of_nat (length w) - m.

(** [l] is a candidate of scatter above zero that no candidate exceeds and
    no earlier candidate equals. *)
Definition earliest_maximum (w : list float64) (m l : Z) : Prop :=
  candidate w m l
  /\ (0 <? between_class_scatter w l)%float = true
  /\ (forall l', candidate w m l' ->
        (between_class_scatter w l <? between_class_scatter w l')%float = false)
  /\ (forall l', candidate w m l' -> l' < l ->
        (between_class_scatter w l <=? between_class_scatter w l')%float = false).

(** A run of [k] values [a] followed by a run of [j] values [b]. *)
Definition two_runs (a b : float64) (k j : nat) : list float64 :=
  replicate k a ++ replicate j b.

(** The scatter at [k] is above zero and above that of every other
    candidate, as a test. *)
Definition peaks_at (w : list float64) (m k : Z) : bool :=
  (0 <? between_class_scatter w k)%float
  && forallb (fun l => (l =? k)
                       || (between_class_scatter w l <? between_class_scatter w k)%float)
       (seqZ m (Z.of_nat (length w) - m + 1 - m)).

(** The state of the second loop when the split of length [l] has won. *)
Definition winner_of (w : list float64) (l : Z) : scan :=
  winner (Z.of_nat (length w)) (sum_of w) (sumsq_of w) l
    (prefix_sum w l) (prefix_sumsq w l).

(** The inputs [Check] can receive: a length and a minimum sample size that
    are values of [int], the latter not negative. *)
Definition valid_window (w : list float64) : Prop :=
  Z.of_nat (length w) <= int_max.

Definition valid_detector (d : Detector) : Prop :=
  0 <= MinSampleSize d <= int_max.

(** After the candidates below [a]: no split has won, or the earliest
    maximum among them has. *)
Definition searched (w : list float64) (m a : Z) (st : scan) : Prop :=
  (st = scan0 /\ forall l, m <= l < a -> (0 <? between_class_scatter w l)%float = false)
  \/ (exists b, m <= b < a /\ st = winner_of w b
        /\ (0 <? between_class_scatter w b)%float = true
        /\ (forall l, m <= l < a ->
              (between_class_scatter w b <? between_class_scatter w l)%float = false)
        /\ (forall l, m <= l < b ->
              (between_class_scatter w b <=? between_class_scatter w l)%float = false)).

(** The change point [Check] builds from the state of the search. *)
Definition change_point Welch (st : scan) : ChangePoint :=
  {| Index := maxsbIdx st;
     Difference := (Mean (after st) - Mean (before st))%float;
     Confidence := confidence Welch st;
     Before := before st;
     After := after st |}.

(** The array at [l] has [n] elements. *)
Definition has_len (h : heap) (l : loc) (n : nat) : Prop :=
  exists a, h !! l = Some a /\ length a = n.

(** Every array of [h] is in [h'] with its length. *)
Definition keeps_lens (h h' : heap) : Prop :=
  forall l n, has_len h l n -> has_len h' l n.

(** The stream owns a window and a block buffer of the configured lengths. *)
Definition stream_wf (h : heap) (s : Stream) : Prop :=
  0 <= windowSize s <= int_max
  /\ 1 <= blockSize s <= int_max
  /\ off (data s) = 0%nat /\ len (data s) = Z.to_nat (windowSize s)
  /\ off (buffer s) = 0%nat /\ len (buffer s) = Z.to_nat (blockSize s)
  /\ has_len h (arr (data s)) (Z.to_nat (windowSize s))
  /\ has_len h (arr (buffer s)) (Z.to_nat (blockSize s))
  /\ 0 <= bufidx s < blockSize s.

(** A number that is a zero or not a number. *)
Definition sf_null (x : spec_float) : Prop :=
  match x with
  | S754_zero _ | S754_nan => True
  | _ => False
  end.

(** ** The contents of a stream *)

(** The window after the values [ys] were shifted in: the last [W] of [W]
    zeros followed by [ys]. *)
Definition window_after (W : nat) (ys : list float64) : list float64 :=
  drop (length ys) (replicate W 0%float ++ ys).

(** The stream of window [W] and block [B] after the blocks [done] and the
    values [blk] of a block not yet full. *)
Definition stream_at (W B : Z) (d : Detector) (done blk : list float64)
    (h : heap) (s : Stream) : Prop :=
  windowSize s = W /\ blockSize s = B /\ detector s = d
  /\ off (data s) = 0%nat /\ len (data s) = Z.to_nat W
  /\ off (buffer s) = 0%nat /\ len (buffer s) = Z.to_nat B
  /\ arr (data s) <> arr (buffer s)
  /\ h !! arr (data s) = Some (window_after (Z.to_nat W) done)
  /\ (exists b, h !! arr (buffer s) = Some b /\ length b = Z.to_nat B
                /\ take (length blk) b = blk)
  /\ bufidx s = Z.of_nat (length blk)
  /\ items s = wrap (Z.of_nat (length done + length blk)).

(** A stream made by [NewStream] in an empty store, fed with [xs]: the
    stream, the results and the store at the end. *)
Definition stream_run (Welch : Stats -> Stats -> float64)
    (windowSize minSample blockSize : Z) (confidence : float64) (xs : list float64)
    : outcome (Stream * list (option ChangePoint) * heap) :=
  (do s <- NewStream windowSize minSample blockSize confidence;
   push_all Welch s xs) [].

(** ** The results of [Check] *)

(** The change point of a search that no split has won. *)
Definition zero_change_point : ChangePoint :=
  {| Index := 0; Difference := 0; Confidence := 0;
     Before := zero_Stats; After := zero_Stats |}.

(** A number of sign [s], or not a number. *)
Definition sf_signed (s : bool) (x : spec_float) : Prop :=
  match x with
  | S754_nan => True
  | S754_zero s' | S754_infinity s' | S754_finite s' _ _ => s' = s
  end.

(** ** The test of the package *)

Inductive verdict : Type := Passes | Fails | Crashes.

(** [Detector{MinSampleSize: 5}]: the confidence is the zero value. *)
Definition test_detector : Detector :=
  {| MinSampleSize := 5; MinConfidence := 0 |}.

Definition test_steady : list float64 := replicate 23 1%float.

Definition test_step : list float64 :=
  replicate 11 1%float ++ replicate 12 2%float.

Definition test_noise : list float64 :=
  [1; 1; 2; 2; 1; 1; 2; 2; 1; 1; 2; 3; 0; 1; 2; 2; 1; 1; 2; 2; 1; 1; 2]%float.

(** One iteration of the loop of [TestDetectChange]: [r.Confidence] on a
    [nil] result is a nil dereference, [t.Errorf] a failure. *)
Definition check_case (Welch : Stats -> Stats -> float64) (w : list float64) (idx : Z)
    : verdict :=
  match check_window Welch test_detector w with
  | Panics => Crashes
  | Returns r =>
      if (match r with
          | None => true
          | Some cp => (Confidence cp <? 0.95)%float
          end) && (idx =? 0)
      then Passes
      else match r with
           | None => Crashes
           | Some cp =>
               if (0.95 <=? Confidence cp)%float && (Index cp =? idx) then Passes
               else Fails
           end
  end.

(** [func TestDetectChange(t *testing.T)]: the verdict of each case, taken
    on its own (in a run, a crash ends the test). *)
Definition TestDetectChange (Welch : Stats -> Stats -> float64) : list verdict :=
  [check_case Welch test_steady 0; check_case Welch test_step 10;
   check_case Welch test_noise 0].

(** ** Examples *)

(** The detector of the specification's example. *)
Definition example_detector : Detector :=
  {| MinSampleSize := 5; MinConfidence := 0.8 |}.

(** [[1]*10 + [2]*10]. *)
Definition ones_then_twos : list float64 :=
  replicate 10 1%float ++ replicate 10 2%float.

(** The constant window of the first test. *)
Definition all_ones : list float64 := replicate 23 1%float.




(** A detector with a negative minimum sample size. *)
Definition negative_sample_detector : Detector :=
  {| MinSampleSize := -1; MinConfidence := 0.8 |}.

(** A detector with a threshold below zero. *)
Definition negative_confidence_detector : Detector :=
  {| MinSampleSize := 5; MinConfidence := -1 |}.

(** A window with a value that is not a number. *)
Definition ones_nan_twos : list float64 :=
  replicate 10 1%float ++ nan :: replicate 9 2%float.

(** A window given by its elements has a length within [int]. *)
Ltac short_window := unfold valid_window; vm_compute; discriminate.

(** ** Tactics *)

(** The cases of a comparison of exponents and mantissas. *)
Ltac cmp_cases :=
  repeat match goal with
    | s : bool |- _ => destruct s
    end;
  cbn in *;
  repeat match goal with
    | |- context [Pos.compare_cont Eq ?a ?b] =>
        change (Pos.compare_cont Eq a b) with (Pos.compare a b)
    | H : context [Pos.compare_cont Eq ?a ?b] |- _ =>
        change (Pos.compare_cont Eq a b) with (Pos.compare a b) in H
    end;
  repeat match goal with
    | H : context [Z.compare ?a ?b] |- _ => destruct (Z.compare_spec a b); cbn in H
    | |- context [Z.compare ?a ?b] => destruct (Z.compare_spec a b); cbn
    | H : context [Pos.compare ?a ?b] |- _ => destruct (Pos.compare_spec a b); cbn in H
    | |- context [Pos.compare ?a ?b] => destruct (Pos.compare_spec a b); cbn
    end;
  subst; try discriminate; try reflexivity; try lia.

(** The cases of three numbers in a comparison. *)
Ltac sf_cases x y z :=
  destruct x as [?|?| |? ? ?], y as [?|?| |? ? ?], z as [?|?| |? ? ?];
  cbn; intros H1 H2; try discriminate; try reflexivity; try assumption;
  injection H1 as H1; injection H2 as H2; f_equal; cmp_cases.

(** * Properties *)

(** ** Order of binary64 *)

Lemma SFcompare_Lt_Lt x y z :
  SFcompare x y = Some Lt -> SFcompare y z = Some Lt -> SFcompare x z = Some Lt.
Proof. sf_cases x y z. Qed.

Lemma SFcompare_Lt_Eq x y z :
  SFcompare x y = Some Lt -> SFcompare y z = Some Eq -> SFcompare x z = Some Lt.
Proof. sf_cases x y z. Qed.

Lemma SFcompare_irrefl x : SFcompare x x <> Some Lt.
Proof. destruct x as [?|?| |? ? ?]; cbn; try discriminate; intros [=H]; cmp_cases. Qed.


Lemma ltb_Lt (x y : float) :
  (x <? y)%float = true <-> SFcompare (Prim2SF x) (Prim2SF y) = Some Lt.
Proof.
  rewrite ltb_spec. unfold SFltb.
  destruct (SFcompare _ _) as [[]|]; split; intros; congruence.
Qed.

Lemma leb_Lt_Eq (x y : float) :
  (x <=? y)%float = true <->
  SFcompare (Prim2SF x) (Prim2SF y) = Some Lt \/ SFcompare (Prim2SF x) (Prim2SF y) = Some Eq.
Proof.
  rewrite leb_spec. unfold SFleb.
  destruct (SFcompare _ _) as [[]|]; split; intros; intuition congruence.
Qed.

Lemma f64_ltb_trans (x y z : float) :
  (x <? y)%float = true -> (y <? z)%float = true -> (x <? z)%float = true.
Proof. rewrite !ltb_Lt. apply SFcompare_Lt_Lt. Qed.

Lemma f64_ltb_leb_trans (x y z : float) :
  (x <? y)%float = true -> (y <=? z)%float = true -> (x <? z)%float = true.
Proof.
  rewrite !ltb_Lt, leb_Lt_Eq. intros H [H'|H'];
    eauto using SFcompare_Lt_Lt, SFcompare_Lt_Eq.
Qed.

Lemma f64_ltb_irrefl (x : float) : (x <? x)%float = false.
Proof.
  destruct (x <? x)%float eqn:E; [|reflexivity].
  apply ltb_Lt in E. now apply SFcompare_irrefl in E.
Qed.



Lemma f64_ltb_leb_false (x y : float) :
  (x <? y)%float = true -> (y <=? x)%float = false.
Proof.
  intros H. destruct (y <=? x)%float eqn:E; [|reflexivity].
  pose proof (f64_ltb_leb_trans _ _ _ H E) as H'.
  now rewrite f64_ltb_irrefl in H'.
Qed.



Lemma SF64mul_null_l x y : sf_null x -> sf_null (SF64mul x y).
Proof. destruct x as [?|?| |? ? ?], y as [?|?| |? ? ?]; cbn; tauto. Qed.



(** ** Slices in the store *)

Lemma holds_lookup h s w :
  holds h s w -> exists a, h !! arr s = Some a /\ forall i : nat, (i < len s)%nat -> a !! (off s + i)%nat = w !! i.
Proof.
  intros (a & Ha & Hw & Hl). exists a. split; [done|]. intros i Hi.
  rewrite <- Hw. rewrite lookup_take_lt by lia. by rewrite lookup_drop.
Qed.

Lemma index_holds h s w (i : nat) v :
  holds h s w -> w !! i = Some v -> index s (Z.of_nat i) h = Returns (v, h).
Proof.
  intros Hh Hv. pose proof Hh as (a' & _ & _ & Hlen).
  destruct (holds_lookup _ _ _ Hh) as (a & Ha & Hget).
  assert (i < len s)%nat as Hi by (rewrite <- Hlen; by eapply lookup_lt_Some).
  unfold index, in_bounds.
  replace ((0 <=? Z.of_nat i) && (Z.of_nat i <? Z.of_nat (len s))) with true
    by (symmetry; apply andb_true_iff; split; [apply Z.leb_le|apply Z.ltb_lt]; lia).
  rewrite Ha, Nat2Z.id, Hget, Hv by done. done.
Qed.

Lemma index_out h s i :
  ~ (0 <= i < Z.of_nat (len s)) -> index s i h = Panics.
Proof.
  intros Hi. unfold index, in_bounds.
  destruct (0 <=? i) eqn:E1; [|done]. destruct (i <? Z.of_nat (len s)) eqn:E2; [|done].
  apply Z.leb_le in E1. apply Z.ltb_lt in E2. lia.
Qed.

Lemma at_index_Some (a : list float64) (i : nat) v :
  a !! i = Some v -> at_index a (Z.of_nat i) = Returns v.
Proof.
  intros Hv. pose proof (lookup_lt_Some _ _ _ Hv). unfold at_index.
  replace ((0 <=? Z.of_nat i) && (Z.of_nat i <? Z.of_nat (length a))) with true
    by (symmetry; apply andb_true_iff; split; [apply Z.leb_le|apply Z.ltb_lt]; lia).
  by rewrite Nat2Z.id, Hv.
Qed.

Lemma at_index_out (a : list float64) i :
  ~ (0 <= i < Z.of_nat (length a)) -> at_index a i = Panics.
Proof.
  intros Hi. unfold at_index.
  destruct (0 <=? i) eqn:E1; [|done]. destruct (i <? Z.of_nat (length a)) eqn:E2; [|done].
  apply Z.leb_le in E1. apply Z.ltb_lt in E2. lia.
Qed.

(** Reading a slice that holds [w] is reading [w]. *)
Lemma index_at_index h s w i :
  holds h s w ->
  index s i h = match at_index w i with Returns v => Returns (v, h) | Panics => Panics end.
Proof.
  intros Hh. pose proof Hh as (a' & _ & _ & Hlen).
  destruct (decide (0 <= i < Z.of_nat (len s))) as [Hi|Hi].
  - destruct (lookup_lt_is_Some_2 w (Z.to_nat i)) as [v Hv]; [lia|].
    rewrite <- (Z2Nat.id i) by lia.
    by rewrite (index_holds _ _ _ _ _ Hh Hv), (at_index_Some _ _ _ Hv).
  - rewrite index_out by done. rewrite at_index_out by (rewrite Hlen; done). done.
Qed.

Lemma holds_app h h' s w : holds h s w -> holds (h ++ h') s w.
Proof.
  intros (a & Ha & Hw). exists a. split; [|done].
  rewrite lookup_app_l; [done|]. by eapply lookup_lt_Some.
Qed.

Lemma in_bounds_true s (i : nat) : (i < len s)%nat -> in_bounds s (Z.of_nat i) = true.
Proof.
  intros. unfold in_bounds. apply andb_true_iff. split; [apply Z.leb_le|apply Z.ltb_lt]; lia.
Qed.

(** Writing entry [length A] of a fresh array. *)
Lemma assign_first h A x rest B n i v :
  i = length A -> (i < n)%nat ->
  assign {| arr := length h; off := 0; len := n |} (Z.of_nat i) v
    (h ++ [A ++ x :: rest; B])
  = Returns (tt, h ++ [(A ++ [v]) ++ rest; B]).
Proof.
  intros -> Hn. unfold assign. rewrite in_bounds_true by done. cbn [arr off].
  rewrite list_lookup_middle by done. rewrite Nat2Z.id. cbn [Nat.add].
  f_equal. f_equal.
  rewrite <- (Nat.add_0_r (length h)) at 1. rewrite insert_app_r. cbn.
  rewrite <- (Nat.add_0_r (length A)) at 1. rewrite insert_app_r. cbn.
  by rewrite <- app_assoc.
Qed.

Lemma assign_second h A B x rest n i v :
  i = length B -> (i < n)%nat ->
  assign {| arr := S (length h); off := 0; len := n |} (Z.of_nat i) v
    (h ++ [A; B ++ x :: rest])
  = Returns (tt, h ++ [A; (B ++ [v]) ++ rest]).
Proof.
  intros -> Hn. unfold assign. rewrite in_bounds_true by done. cbn [arr off].
  change (h ++ [A; B ++ x :: rest]) with (h ++ [A] ++ [B ++ x :: rest]).
  rewrite app_assoc.
  assert (S (length h) = length (h ++ [A])) as -> by (rewrite length_app; cbn; lia).
  rewrite list_lookup_middle by done. rewrite Nat2Z.id. cbn [Nat.add].
  f_equal. f_equal.
  rewrite <- (Nat.add_0_r (length (h ++ [A]))) at 1. rewrite insert_app_r. cbn.
  rewrite <- (Nat.add_0_r (length B)) at 1. rewrite insert_app_r. cbn.
  by rewrite <- !app_assoc.
Qed.

Lemma for_each_accumulate h s post : forall pre A B acc accq n,
  holds h s (pre ++ post) ->
  length A = length pre -> length B = length pre ->
  n = length (pre ++ post) ->
  for_each (seqZ (Z.of_nat (length pre)) (Z.of_nat (length post)))
    (accumulate s {| arr := length h; off := 0; len := n |}
                  {| arr := S (length h); off := 0; len := n |})
    (acc, accq)
    (h ++ [A ++ replicate (length post) 0%float; B ++ replicate (length post) 0%float])
  = Returns ((total_from id acc post, total_from square accq post),
             h ++ [A ++ sums_from id acc post; B ++ sums_from square accq post]).
Proof.
  induction post as [|v post IH]; intros pre A B acc accq n Hh HA HB Hn.
  - cbn. done.
  - rewrite seqZ_cons by (cbn [length]; lia).
    cbn [for_each]. unfold bind at 1. unfold accumulate at 1. unfold bind at 1.
    rewrite (index_holds _ _ (pre ++ v :: post) _ v).
    2: { by apply holds_app. }
    2: { by apply list_lookup_middle. }
    cbn [length replicate]. unfold bind at 1.
    rewrite assign_first by (done || (subst n; rewrite length_app; cbn; lia)).
    unfold bind at 1.
    rewrite assign_second by (done || (subst n; rewrite length_app; cbn; lia)).
    unfold ret at 1.
    replace (Z.succ (Z.of_nat (length pre))) with (Z.of_nat (length (pre ++ [v])))
      by (rewrite length_app; cbn; lia).
    replace (Z.pred (Z.of_nat (S (length post)))) with (Z.of_nat (length post)) by lia.
    rewrite (IH (pre ++ [v]) (A ++ [(acc + v)%float]) (B ++ [(accq + v * v)%float])).
    + cbn [total_from sums_from]. by rewrite <- !app_assoc.
    + by rewrite <- app_assoc.
    + rewrite !length_app. cbn. lia.
    + rewrite !length_app. cbn. lia.
    + by rewrite <- app_assoc.
Qed.

Lemma split_at_step h n cs_sl cq_sl cs cq sum sumsq l st :
  holds h cs_sl cs -> holds h cq_sl cq ->
  split_at n cs_sl cq_sl sum sumsq l st h = lift h (split_step n cs cq sum sumsq l st).
Proof.
  intros Hcs Hcq. unfold split_at, split_step, bind.
  rewrite (index_at_index _ _ _ _ Hcs).
  destruct (at_index cs (int_sub l 1)) as [c|]; [|done]. cbn.
  change (_ * _ / _ * _ * _)%float with (scatter n sum l c).
  destruct (maxsb st <? scatter n sum l c)%float; [|done].
  rewrite (index_at_index _ _ _ _ Hcq).
  destruct (at_index cq (int_sub l 1)) as [q|]; done.
Qed.

Lemma for_each_split_at h n cs_sl cq_sl cs cq sum sumsq cands st :
  holds h cs_sl cs -> holds h cq_sl cq ->
  for_each cands (split_at n cs_sl cq_sl sum sumsq) st h
  = lift h (fold_outcome (split_step n cs cq sum sumsq) cands st).
Proof.
  intros Hcs Hcq. revert st. induction cands as [|l cands IH]; intros st; [done|].
  cbn. unfold bind. rewrite (split_at_step _ _ _ _ _ _ _ _ _ _ Hcs Hcq).
  destruct (split_step n cs cq sum sumsq l st) as [st'|]; [|done]. cbn. apply IH.
Qed.

Lemma length_sums_from term w : forall acc, length (sums_from term acc w) = length w.
Proof. induction w as [|v w IH]; intros acc; cbn; [done|]. by rewrite IH. Qed.

Lemma holds_whole (h : heap) (a : list float64) (i : nat) :
  h !! i = Some a -> holds h {| arr := i; off := 0; len := length a |} a.
Proof. intros Hi. exists a. cbn. by rewrite firstn_all. Qed.

Theorem Detector_Check_detect Welch d s h w :
  holds h s w ->
  Detector_Check Welch d s h
  = match detect Welch d w with
    | Returns r => Returns (r, h ++ [cumsum_of w; cumsumsq_of w])
    | Panics => Panics
    end.
Proof.
  intros Hh. pose proof Hh as (a & _ & _ & Hlen).
  unfold Detector_Check, detect, search.
  unfold bind at 1. unfold make at 1.
  rewrite (proj2 (Z.ltb_ge _ _)) by lia.
  unfold bind at 1. unfold make at 1.
  rewrite (proj2 (Z.ltb_ge _ _)) by lia.
  rewrite Nat2Z.id, length_app. cbn [length].
  replace (length h + 1)%nat with (S (length h)) by lia.
  rewrite <- app_assoc. cbn [app].
  unfold bind at 1.
  pose proof (for_each_accumulate h s w [] [] [] 0%float 0%float (len s)) as Hloop.
  cbn [app length] in Hloop. rewrite <- Hlen in *.
  change (Z.of_nat 0) with 0 in Hloop. rewrite Hloop by done. clear Hloop. cbv beta iota.
  fold (sum_of w) (sumsq_of w) (cumsum_of w) (cumsumsq_of w).
  unfold bind at 1.
  rewrite (for_each_split_at _ _ _ _ (cumsum_of w) (cumsumsq_of w)).
  - unfold candidates.
    destruct (fold_outcome _ _ _) as [st|]; [|done]. cbn [lift].
    unfold conclude, confidence.
    destruct (_ <=? _)%float; done.
  - replace (length w) with (length (cumsum_of w)) by apply length_sums_from.
    apply holds_whole. by apply list_lookup_middle.
  - replace (length w) with (length (cumsumsq_of w)) by apply length_sums_from.
    apply holds_whole.
    change (h ++ [cumsum_of w; cumsumsq_of w]) with (h ++ [cumsum_of w] ++ [cumsumsq_of w]).
    rewrite app_assoc. apply list_lookup_middle. rewrite length_app. cbn. lia.
Qed.

(** ** Machine integers in range *)

Lemma wrap_id z : is_int z -> wrap z = z.
Proof.
  unfold is_int, int_min, int_max, wrap. intros Hz.
  rewrite Z.mod_small; lia.
Qed.

Lemma int_sub_id a b : is_int (a - b) -> int_sub a b = a - b.
Proof. apply wrap_id. Qed.

Lemma int_add_id a b : is_int (a + b) -> int_add a b = a + b.
Proof. apply wrap_id. Qed.

Lemma minSampleSize_of_pos d :
  valid_detector d -> 1 <= minSampleSize_of d <= int_max.
Proof.
  unfold valid_detector, minSampleSize_of, DefaultMinSampleSize, int_max.
  destruct (MinSampleSize d =? 0) eqn:E; [lia|]. apply Z.eqb_neq in E. lia.
Qed.

Lemma candidates_seqZ n m :
  0 <= n <= int_max -> 1 <= m <= int_max ->
  candidates n m = seqZ m (n - m + 1 - m).
Proof.
  unfold candidates, int_max. intros Hn Hm.
  rewrite (int_sub_id n m) by (unfold is_int, int_min, int_max; lia).
  rewrite int_add_id by (unfold is_int, int_min, int_max; lia). done.
Qed.

(** ** The cumulative sums *)

Lemma lookup_sums_from term w : forall acc (i : nat),
  (i < length w)%nat ->
  sums_from term acc w !! i = Some (total_from term acc (take (S i) w)).
Proof.
  induction w as [|v w IH]; intros acc i Hi; cbn in *; [lia|].
  destruct i as [|i]; cbn.
  - by rewrite take_0.
  - apply IH. lia.
Qed.

Lemma at_index_cumsum w l :
  1 <= l <= Z.of_nat (length w) ->
  at_index (cumsum_of w) (l - 1) = Returns (prefix_sum w l).
Proof.
  intros Hl. unfold cumsum_of, prefix_sum, sum_of.
  rewrite <- (Z2Nat.id (l - 1)) by lia. erewrite at_index_Some; [done|].
  rewrite lookup_sums_from by lia. do 3 f_equal. lia.
Qed.

Lemma at_index_cumsumsq w l :
  1 <= l <= Z.of_nat (length w) ->
  at_index (cumsumsq_of w) (l - 1) = Returns (prefix_sumsq w l).
Proof.
  intros Hl. unfold cumsumsq_of, prefix_sumsq, sumsq_of.
  rewrite <- (Z2Nat.id (l - 1)) by lia. erewrite at_index_Some; [done|].
  rewrite lookup_sums_from by lia. do 3 f_equal. lia.
Qed.

Lemma scatter_between_class w l :
  valid_window w -> 1 <= l <= Z.of_nat (length w) ->
  scatter (Z.of_nat (length w)) (sum_of w) l (prefix_sum w l) = between_class_scatter w l.
Proof.
  unfold valid_window, int_max. intros Hw Hl.
  unfold scatter, between_class_scatter, mean_before, mean_after.
  rewrite int_sub_id by (unfold is_int, int_min, int_max; lia). done.
Qed.

(** One iteration of the second loop at a candidate. *)
Lemma split_step_candidate w l st :
  valid_window w -> 1 <= l <= Z.of_nat (length w) ->
  split_step (Z.of_nat (length w)) (cumsum_of w) (cumsumsq_of w) (sum_of w) (sumsq_of w) l st
  = Returns (if (maxsb st <? between_class_scatter w l)%float then winner_of w l else st).
Proof.
  intros Hw Hl. unfold split_step.
  rewrite int_sub_id by (unfold valid_window, is_int, int_min, int_max in *; lia).
  rewrite at_index_cumsum, at_index_cumsumsq, scatter_between_class by done.
  by destruct (_ <? _)%float.
Qed.

Lemma maxsb_winner_of w l :
  valid_window w -> 1 <= l <= Z.of_nat (length w) ->
  maxsb (winner_of w l) = between_class_scatter w l.
Proof. intros. unfold winner_of. cbn. by apply scatter_between_class. Qed.

(** ** The invariant of the second loop *)

Lemma searched_step w m a st :
  valid_window w -> 1 <= m -> m <= a <= Z.of_nat (length w) ->
  searched w m a st ->
  searched w m (a + 1)
    (if (maxsb st <? between_class_scatter w a)%float then winner_of w a else st).
Proof.
  intros Hw Hm Ha Hst.
  destruct (maxsb st <? between_class_scatter w a)%float eqn:Hlt.
  - (* the split of length a wins *)
    assert ((0 <? between_class_scatter w a)%float = true
            /\ forall l, m <= l < a ->
                 (between_class_scatter w a <? between_class_scatter w l)%float = false
                 /\ (between_class_scatter w a <=? between_class_scatter w l)%float = false)
      as [Hpos Hbelow].
    { destruct Hst as [[-> Hnone]|(b & Hb & -> & Hbpos & Hmax & _)].
      - change (maxsb scan0) with 0%float in Hlt.
        split; [exact Hlt|]. intros l Hl. specialize (Hnone l Hl). split.
        + destruct (between_class_scatter w a <? between_class_scatter w l)%float eqn:E; [|done].
          by rewrite (f64_ltb_trans _ _ _ Hlt E) in Hnone.
        + destruct (between_class_scatter w a <=? between_class_scatter w l)%float eqn:E; [|done].
          by rewrite (f64_ltb_leb_trans _ _ _ Hlt E) in Hnone.
      - rewrite maxsb_winner_of in Hlt by (done || lia).
        split; [by eapply f64_ltb_trans|]. intros l Hl. specialize (Hmax l Hl). split.
        + destruct (between_class_scatter w a <? between_class_scatter w l)%float eqn:E; [|done].
          by rewrite (f64_ltb_trans _ _ _ Hlt E) in Hmax.
        + destruct (between_class_scatter w a <=? between_class_scatter w l)%float eqn:E; [|done].
          by rewrite (f64_ltb_leb_trans _ _ _ Hlt E) in Hmax. }
    right. exists a. split; [lia|]. split; [done|]. split; [done|]. split.
    + intros l Hl. destruct (decide (l = a)) as [->|Hne].
      * apply f64_ltb_irrefl.
      * apply Hbelow. lia.
    + intros l Hl. by apply Hbelow.
  - (* the state is kept *)
    destruct Hst as [[-> Hnone]|(b & Hb & -> & Hbpos & Hmax & Hfirst)].
    + left. split; [done|]. intros l Hl. destruct (decide (l = a)) as [->|Hne].
      * exact Hlt.
      * apply Hnone. lia.
    + right. exists b. split; [lia|]. split; [done|]. split; [done|]. split; [|done].
      intros l Hl. destruct (decide (l = a)) as [->|Hne].
      * by rewrite maxsb_winner_of in Hlt by (done || lia).
      * apply Hmax. lia.
Qed.

Lemma fold_searched w m : forall (k : nat) a st,
  valid_window w -> 1 <= m -> m <= a -> a + Z.of_nat k <= Z.of_nat (length w) + 1 ->
  searched w m a st ->
  exists st',
    fold_outcome (split_step (Z.of_nat (length w)) (cumsum_of w) (cumsumsq_of w)
                    (sum_of w) (sumsq_of w)) (seqZ a (Z.of_nat k)) st = Returns st'
    /\ searched w m (a + Z.of_nat k) st'.
Proof.
  induction k as [|k IH]; intros a st Hw Hm Ha Hk Hst.
  - exists st. split; [done|]. by rewrite Z.add_0_r.
  - rewrite seqZ_cons by lia. cbn [fold_outcome].
    rewrite split_step_candidate by (done || lia).
    replace (Z.pred (Z.of_nat (S k))) with (Z.of_nat k) by lia.
    destruct (IH (Z.succ a)
                (if (maxsb st <? between_class_scatter w a)%float then winner_of w a else st))
      as (st' & Hrun & Hst'); try done; try lia.
    { replace (Z.succ a) with (a + 1) by lia. apply searched_step; (done || lia). }
    exists st'. split; [done|].
    by replace (a + Z.of_nat (S k)) with (Z.succ a + Z.of_nat k) by lia.
Qed.

(** The second loop returns, with no split or with the earliest maximum. *)
Lemma search_searched w m :
  valid_window w -> 1 <= m <= int_max ->
  exists st, search m w = Returns st
             /\ searched w m (Z.max m (Z.of_nat (length w) - m + 1)) st.
Proof.
  intros Hw Hm. unfold search.
  rewrite candidates_seqZ by (unfold valid_window in Hw; lia).
  destruct (decide (Z.of_nat (length w) - m + 1 - m <= 0)) as [Hempty|Hsome].
  - rewrite seqZ_nil by done. exists scan0. split; [done|].
    left. split; [done|]. intros l Hl. lia.
  - destruct (fold_searched w m (Z.to_nat (Z.of_nat (length w) - m + 1 - m)) m scan0)
      as (st & Hrun & Hst); try done; try lia.
    { left. split; [done|]. intros l Hl. lia. }
    rewrite Z2Nat.id in Hrun, Hst by lia. exists st. split; [done|].
    by replace (Z.max m (Z.of_nat (length w) - m + 1)) with
      (m + (Z.of_nat (length w) - m + 1 - m)) by lia.
Qed.

(** ** Detector.Check *)

Lemma holds_only (w : list float64) :
  holds [w] {| arr := 0%nat; off := 0; len := length w |} w.
Proof. exists w. cbn. by rewrite firstn_all. Qed.

Lemma check_window_detect Welch d w : check_window Welch d w = detect Welch d w.
Proof.
  unfold check_window. rewrite (Detector_Check_detect Welch d _ _ w (holds_only w)).
  by destruct (detect Welch d w).
Qed.

(** What the search leaves when it has looked at every candidate. *)
Lemma search_result w m :
  valid_window w -> 1 <= m <= int_max ->
  exists st, search m w = Returns st
    /\ ((st = scan0
          /\ forall l, candidate w m l -> (0 <? between_class_scatter w l)%float = false)
        \/ (earliest_maximum w m (maxsbIdx st) /\ st = winner_of w (maxsbIdx st))).
Proof.
  intros Hw Hm. destruct (search_searched w m Hw Hm) as (st & Hrun & Hst).
  exists st. split; [done|].
  destruct Hst as [[-> Hnone]|(b & Hb & -> & Hpos & Hmax & Hfirst)].
  - left. split; [done|]. intros l [Hl1 Hl2]. apply Hnone. lia.
  - right. cbn [winner_of winner maxsbIdx]. split; [|done].
    assert (candidate w m b) as Hcb by (unfold candidate; lia).
    split; [done|]. split; [done|]. split.
    + intros l [Hl1 Hl2]. apply Hmax. lia.
    + intros l [Hl1 Hl2] Hlt. apply Hfirst. lia.
Qed.

Lemma winner_of_fields w l :
  valid_window w -> 1 <= l <= Z.of_nat (length w) ->
  maxsb (winner_of w l) = between_class_scatter w l
  /\ maxsbIdx (winner_of w l) = l
  /\ Len (before (winner_of w l)) = l
  /\ Len (after (winner_of w l)) = Z.of_nat (length w) - l
  /\ Mean (before (winner_of w l)) = mean_before w l
  /\ Mean (after (winner_of w l)) = mean_after w l.
Proof.
  intros Hw Hl. split; [by apply maxsb_winner_of|].
  unfold winner_of, winner, mean_before, mean_after. cbn.
  rewrite int_sub_id by (unfold valid_window, is_int, int_min, int_max in *; lia).
  done.
Qed.

(** C1.  For every window and every minimum sample size that is not
    negative, with [m] the configured size, or 30 when it is 0, the search
    of [Check] returns and [Check] concludes from the state it leaves.
    Either no candidate length in [[m, n - m]] has a scatter above zero and
    no split has won, or the winning split [maxsbIdx] is the earliest
    candidate of largest scatter: its scatter is above zero, no candidate
    has a larger one, and no earlier candidate has one as large (the search
    replaces its maximum only by a strictly larger scatter).  The winning
    split [l] has the segment [[0, l)] before it, with [n1 = l] and
    [mean1 = cumsum[l-1] / n1], and the segment [[l, n)] after it, with
    [n2 = n - l]. *)
Theorem Check_selects_earliest_maximum Welch d w :
  valid_detector d -> valid_window w ->
  let m := minSampleSize_of d in
  (m = if MinSampleSize d =? 0 then 30 else MinSampleSize d)
  /\ exists st,
      search m w = Returns st
      /\ check_window Welch d w = Returns (conclude Welch d st)
      /\ ((st = scan0
            /\ forall l, candidate w m l -> (0 <? between_class_scatter w l)%float = false)
          \/ (earliest_maximum w m (maxsbIdx st)
              /\ maxsb st = between_class_scatter w (maxsbIdx st)
              /\ Len (before st) = maxsbIdx st
              /\ Len (after st) = Z.of_nat (length w) - maxsbIdx st
              /\ Mean (before st) = mean_before w (maxsbIdx st)
              /\ Mean (after st) = mean_after w (maxsbIdx st))).
Proof.
  intros Hd Hw m. split; [done|].
  pose proof (minSampleSize_of_pos d Hd) as Hm. fold m in Hm.
  destruct (search_result w m Hw Hm) as (st & Hrun & Hst).
  exists st. split; [done|]. split.
  - rewrite check_window_detect. unfold detect. fold m. by rewrite Hrun.
  - destruct Hst as [Hnone|[Hmax Heq]]; [by left|right].
    split; [done|]. pose proof Hmax as ([Hc1 Hc2] & _).
    destruct (winner_of_fields w (maxsbIdx st)) as (H1 & H2 & H3 & H4 & H5 & H6);
      [done|lia|].
    rewrite <- Heq in *. done.
Qed.

Lemma SFcompare_refl x : x <> S754_nan -> SFcompare x x = Some Eq.
Proof.
  destruct x as [s|s| |s m e]; cbn; try done; intros _; f_equal.
  - by destruct s.
  - change (Pos.compare_cont Eq m m) with (Pos.compare m m).
    rewrite Z.compare_refl, Pos.compare_refl. by destruct s.
Qed.


Lemma confidence_scan0 Welch : confidence Welch scan0 = 0%float.
Proof. done. Qed.

Lemma conclude_scan0 Welch d :
  (0 <=? MinConfidence d)%float = true -> conclude Welch d scan0 = None.
Proof. intros Hc. unfold conclude. by rewrite confidence_scan0, Hc. Qed.

(** C5.  For every window shorter than twice the minimum sample size
    (the configured size not negative, 30 standing for 0, and the minimum
    confidence not negative), the range of candidates is empty and [Check]
    returns [nil]: it does not panic, on the empty window either, and on
    any store it only adds its two arrays of cumulative sums. *)
Theorem short_window_returns_nil Welch d w :
  valid_detector d -> valid_window w ->
  (0 <=? MinConfidence d)%float = true ->
  Z.of_nat (length w) < 2 * minSampleSize_of d ->
  candidates (Z.of_nat (length w)) (minSampleSize_of d) = []
  /\ check_window Welch d w = Returns None
  /\ forall h s, holds h s w ->
       Detector_Check Welch d s h = Returns (None, h ++ [cumsum_of w; cumsumsq_of w]).
Proof.
  intros Hd Hw Hc Hshort. pose proof (minSampleSize_of_pos d Hd) as Hm.
  assert (candidates (Z.of_nat (length w)) (minSampleSize_of d) = []) as Hnil.
  { rewrite candidates_seqZ by (unfold valid_window in Hw; lia).
    apply seqZ_nil. lia. }
  assert (detect Welch d w = Returns None) as Hdet.
  { unfold detect, search. rewrite Hnil. cbn. by rewrite conclude_scan0. }
  split; [done|]. split.
  - by rewrite check_window_detect.
  - intros h s Hh. by rewrite (Detector_Check_detect Welch d s h w Hh), Hdet.
Qed.




Lemma detect_returns Welch d w :
  valid_detector d -> valid_window w -> exists r, detect Welch d w = Returns r.
Proof.
  intros Hd Hw. pose proof (minSampleSize_of_pos d Hd) as Hm.
  destruct (search_result w _ Hw Hm) as (st & Hrun & _).
  exists (conclude Welch d st). unfold detect. by rewrite Hrun.
Qed.

(** C9.  [Check] called twice on the same window with the same detector,
    the second time in the store the first call left, returns both times,
    with the same result; the window is the same between the calls. *)
Theorem Check_twice_same_result Welch d s h w :
  holds h s w -> valid_detector d -> valid_window w ->
  exists r h' h'',
    Detector_Check Welch d s h = Returns (r, h')
    /\ holds h' s w
    /\ Detector_Check Welch d s h' = Returns (r, h'').
Proof.
  intros Hh Hd Hw. destruct (detect_returns Welch d w Hd Hw) as [r Hr].
  exists r, (h ++ [cumsum_of w; cumsumsq_of w]),
    ((h ++ [cumsum_of w; cumsumsq_of w]) ++ [cumsum_of w; cumsumsq_of w]).
  assert (holds (h ++ [cumsum_of w; cumsumsq_of w]) s w) as Hh' by by apply holds_app.
  split; [|split; [done|]].
  - by rewrite (Detector_Check_detect Welch d s h w Hh), Hr.
  - by rewrite (Detector_Check_detect Welch d s _ w Hh'), Hr.
Qed.

(** C10.  [Check] does not write to its window: when it returns, the
    window slice holds the values it held, every array of the store is
    unchanged, and the store has only grown by the two fresh arrays of
    cumulative sums; and it does return for a minimum sample size that is
    not negative. *)
Theorem Check_leaves_window Welch d s h w :
  holds h s w ->
  (forall r h', Detector_Check Welch d s h = Returns (r, h') ->
     holds h' s w
     /\ (forall (i : nat) a, h !! i = Some a -> h' !! i = Some a)
     /\ h' = h ++ [cumsum_of w; cumsumsq_of w])
  /\ (valid_detector d -> valid_window w ->
      exists r h', Detector_Check Welch d s h = Returns (r, h')).
Proof.
  intros Hh. split.
  - intros r h'. rewrite (Detector_Check_detect Welch d s h w Hh).
    destruct (detect Welch d w) as [r'|]; [|done]. intros [= <- <-].
    split; [by apply holds_app|]. split; [|done].
    intros i a Hi. rewrite lookup_app_l; [done|]. by eapply lookup_lt_Some.
  - intros Hd Hw. destruct (detect_returns Welch d w Hd Hw) as [r Hr].
    exists r, (h ++ [cumsum_of w; cumsumsq_of w]).
    by rewrite (Detector_Check_detect Welch d s h w Hh), Hr.
Qed.

(** A candidate whose scatter is above zero and above that of every other
    candidate wins the search, and is reported when the confidence of the
    test is above the threshold. *)
Lemma peak_change_point Welch d w k :
  let m := minSampleSize_of d in
  valid_detector d -> valid_window w -> candidate w m k ->
  (0 <? between_class_scatter w k)%float = true ->
  (forall l, candidate w m l -> l <> k ->
     (between_class_scatter w l <? between_class_scatter w k)%float = true) ->
  (MinConfidence d <? Welch (before (winner_of w k)) (after (winner_of w k)))%float = true ->
  search m w = Returns (winner_of w k)
  /\ confidence Welch (winner_of w k) = Welch (before (winner_of w k)) (after (winner_of w k))
  /\ check_window Welch d w = Returns (Some (change_point Welch (winner_of w k))).
Proof.
  intros m Hd Hw Hcand Hpos Hmax Hconf.
  pose proof (minSampleSize_of_pos d Hd) as Hm. fold m in Hm.
  destruct (search_result w m Hw Hm) as (st & Hrun & [[-> Hnone]|[Hbest Heq]]).
  { by rewrite (Hnone _ Hcand) in Hpos. }
  assert (maxsbIdx st = k) as Hidx.
  { destruct (decide (maxsbIdx st = k)) as [|Hne]; [done|].
    destruct Hbest as (Hc & _ & Hnot & _).
    specialize (Hnot _ Hcand). by rewrite (Hmax _ Hc Hne) in Hnot. }
  rewrite Hidx in Heq. subst st. split; [done|].
  assert (confidence Welch (winner_of w k)
          = Welch (before (winner_of w k)) (after (winner_of w k))) as Hc.
  { unfold confidence. cbn [winner_of winner before Len].
    destruct Hcand as [Hk _]. by rewrite (proj2 (Z.ltb_lt 0 k)) by lia. }
  split; [done|].
  rewrite check_window_detect. unfold detect. fold m. rewrite Hrun.
  unfold conclude. fold (change_point Welch (winner_of w k)).
  rewrite Hc. by rewrite (f64_ltb_leb_false _ _ Hconf).
Qed.

Lemma length_two_runs a b k j :
  Z.of_nat (length (two_runs a b k j)) = Z.of_nat k + Z.of_nat j.
Proof. unfold two_runs. rewrite length_app, !length_replicate. lia. Qed.


Lemma peaks_at_spec w m k :
  peaks_at w m k = true ->
  (0 <? between_class_scatter w k)%float = true
  /\ forall l, candidate w m l -> l <> k ->
       (between_class_scatter w l <? between_class_scatter w k)%float = true.
Proof.
  unfold peaks_at. intros Hpeak. apply andb_true_iff in Hpeak as [Hpos Hall].
  split; [done|]. intros l [Hl1 Hl2] Hne. rewrite forallb_forall in Hall.
  specialize (Hall l). rewrite <- list_elem_of_In, elem_of_seqZ in Hall.
  assert (m <= l < m + (Z.of_nat (length w) - m + 1 - m)) as Hin by lia.
  apply Hall, orb_true_iff in Hin as [Heq|Hlt]; [|done].
  apply Z.eqb_eq in Heq. done.
Qed.

(** Runs of ones and twos of 5 to 24 values each: the scatter peaks where
    the runs meet. *)
Lemma ones_twos_peak :
  forallb (fun k => forallb (fun j => peaks_at (two_runs 1 2 k j) 5 (Z.of_nat k))
                      (seq 5 20)) (seq 5 20) = true.
Proof. vm_compute. reflexivity. Qed.

(** For such runs [Check] reports the change where the twos begin whenever
    the confidence of the test is above the threshold. *)
Lemma ones_twos_change_point Welch d (k j : nat) :
  let w := two_runs 1 2 k j in
  MinSampleSize d = 5 ->
  (5 <= k <= 24)%nat -> (5 <= j <= 24)%nat ->
  (MinConfidence d <?
     Welch (before (winner_of w (Z.of_nat k))) (after (winner_of w (Z.of_nat k))))%float = true ->
  check_window Welch d w = Returns (Some (change_point Welch (winner_of w (Z.of_nat k))))
  /\ Index (change_point Welch (winner_of w (Z.of_nat k))) = Z.of_nat k.
Proof.
  intros w Hm Hk Hj Hconf.
  assert (minSampleSize_of d = 5) as Hm' by (unfold minSampleSize_of; by rewrite Hm).
  assert (peaks_at w 5 (Z.of_nat k) = true) as Hpeak.
  { pose proof ones_twos_peak as Hall. rewrite forallb_forall in Hall.
    specialize (Hall k). rewrite in_seq in Hall.
    assert (5 <= k < 5 + 20)%nat as Hin by lia.
    apply Hall in Hin. rewrite forallb_forall in Hin.
    apply Hin, in_seq. lia. }
  apply peaks_at_spec in Hpeak as [Hpos Hmax].
  pose proof (length_two_runs 1 2 k j) as Hlen. fold w in Hlen.
  destruct (peak_change_point Welch d w (Z.of_nat k)) as (_ & _ & Hcheck).
  - unfold valid_detector, int_max. rewrite Hm. lia.
  - unfold valid_window, int_max. lia.
  - rewrite Hm'. unfold candidate. lia.
  - done.
  - by rewrite Hm'.
  - done.
  - done.
Qed.

(** ** Stream *)

Lemma keeps_lens_refl h : keeps_lens h h.
Proof. by intros l n. Qed.

Lemma keeps_lens_trans h1 h2 h3 :
  keeps_lens h1 h2 -> keeps_lens h2 h3 -> keeps_lens h1 h3.
Proof. intros H12 H23 l n Hl. by apply H23, H12. Qed.

Lemma keeps_lens_insert (h : heap) l0 n0 (a' : list float64) :
  has_len h l0 n0 -> length a' = n0 -> keeps_lens h (<[l0 := a']> h).
Proof.
  intros (a & Ha & Hl) Ha' l n (b & Hb & Hbl).
  destruct (decide (l = l0)) as [->|Hne].
  - exists a'. split.
    + apply list_lookup_insert_eq. by eapply lookup_lt_Some.
    + congruence.
  - exists b. split; [|done]. by rewrite list_lookup_insert_ne.
Qed.

Lemma keeps_lens_app h h' : keeps_lens h (h ++ h').
Proof.
  intros l n (a & Ha & Hl). exists a. split; [|done].
  rewrite lookup_app_l; [done|]. by eapply lookup_lt_Some.
Qed.

Lemma in_bounds_Z s i : 0 <= i < Z.of_nat (len s) -> in_bounds s i = true.
Proof.
  intros. unfold in_bounds. apply andb_true_iff.
  split; [apply Z.leb_le|apply Z.ltb_lt]; lia.
Qed.

Lemma assign_keeps h s n i v :
  has_len h (arr s) n -> 0 <= i < Z.of_nat (len s) ->
  exists h', assign s i v h = Returns (tt, h') /\ keeps_lens h h'.
Proof.
  intros Hs Hi. pose proof Hs as (a & Ha & Hl). unfold assign.
  rewrite in_bounds_Z, Ha by done. eexists. split; [done|].
  eapply keeps_lens_insert; [done|]. by rewrite length_insert.
Qed.


Lemma slice_from_in h s lo :
  0 <= lo <= Z.of_nat (len s) ->
  slice_from s lo h
  = Returns ({| arr := arr s; off := (off s + Z.to_nat lo)%nat;
                len := (len s - Z.to_nat lo)%nat |}, h).
Proof.
  intros Hlo. unfold slice_from.
  replace ((0 <=? lo) && (lo <=? Z.of_nat (len s))) with true; [done|].
  symmetry. apply andb_true_iff. split; apply Z.leb_le; lia.
Qed.


Lemma copy_keeps h dst src nd ns :
  has_len h (arr dst) nd -> has_len h (arr src) ns ->
  (off dst + Nat.min (len dst) (len src) <= nd)%nat ->
  (off src + Nat.min (len dst) (len src) <= ns)%nat ->
  exists k h', copy dst src h = Returns (k, h') /\ keeps_lens h h'.
Proof.
  intros Hd Hs Hdn Hsn. pose proof Hd as (ad & Had & Hld).
  pose proof Hs as (as_ & Has & Hls). unfold copy. rewrite Has, Had.
  eexists _, _. split; [done|]. eapply keeps_lens_insert; [done|].
  rewrite !length_app, !length_take, !length_drop. lia.
Qed.

Lemma holds_data h s n :
  has_len h (arr s) n -> off s = 0%nat -> len s = n ->
  exists a, holds h s a /\ length a = n.
Proof.
  intros (a & Ha & Hl) Hoff Hlen. exists a. split; [|done].
  exists a. rewrite Hoff, Hlen, <- Hl. cbn. by rewrite firstn_all.
Qed.

Section StreamProofs.

Variable Welch : Stats -> Stats -> float64.

Lemma Check_keeps h d s n :
  has_len h (arr s) n -> off s = 0%nat -> len s = n ->
  Z.of_nat n <= int_max -> valid_detector d ->
  exists r h', Detector_Check Welch d s h = Returns (r, h') /\ keeps_lens h h'.
Proof.
  intros Hs Hoff Hlen Hn Hd.
  destruct (holds_data h s n Hs Hoff Hlen) as (a & Ha & Hl).
  assert (valid_window a) as Hw by (unfold valid_window; lia).
  destruct (detect_returns Welch d a Hd Hw) as [r Hr].
  exists r, (h ++ [cumsum_of a; cumsumsq_of a]). split.
  - by rewrite (Detector_Check_detect Welch d s h a Ha), Hr.
  - apply keeps_lens_app.
Qed.

Lemma stream_wf_set_counters h h' s b i :
  stream_wf h s -> keeps_lens h h' -> 0 <= b < blockSize s ->
  stream_wf h' (set_counters s b i).
Proof.
  intros (HW & HB & Hd1 & Hd2 & Hb1 & Hb2 & Hdl & Hbl & _) Hk Hb.
  repeat split; cbn; try done; try lia; by apply Hk.
Qed.

(** A push that does not fill the block writes the buffer and no more. *)
Lemma Push_mid_block h s x :
  stream_wf h s -> bufidx s + 1 < blockSize s ->
  exists h',
    Stream_Push Welch s x h
    = Returns ((set_counters s (bufidx s + 1) (int_add (items s) 1), None), h')
    /\ keeps_lens h h'.
Proof.
  intros Hwf Hmid. pose proof Hwf as (HW & HB & Hd1 & Hd2 & Hb1 & Hb2 & Hdl & Hbl & Hi).
  destruct (assign_keeps h (buffer s) _ (bufidx s) x Hbl) as (h' & Hassign & Hk);
    [rewrite Hb2; lia|].
  exists h'. split; [|done]. unfold Stream_Push, bind. rewrite Hassign.
  cbn [bufidx blockSize set_counters].
  rewrite int_add_id by (unfold is_int, int_min, int_max in *; lia).
  by rewrite (proj2 (Z.ltb_lt _ _) Hmid).
Qed.

(** A push that fills the block shifts the window and checks it once
    enough items were seen. *)
Lemma Push_full_block h s x :
  stream_wf h s -> bufidx s + 1 = blockSize s ->
  blockSize s <= windowSize s -> valid_detector (detector s) ->
  exists r h',
    Stream_Push Welch s x h
    = Returns ((set_counters s 0 (int_add (items s) 1), r), h')
    /\ keeps_lens h h'
    /\ (int_add (items s) 1 < windowSize s -> r = None).
Proof.
  intros Hwf Hfull HBW Hdet.
  pose proof Hwf as (HW & HB & Hd1 & Hd2 & Hb1 & Hb2 & Hdl & Hbl & Hi).
  destruct (assign_keeps h (buffer s) _ (bufidx s) x Hbl) as (h1 & Hassign & Hk1);
    [rewrite Hb2; lia|].
  unfold Stream_Push. unfold bind at 1. rewrite Hassign.
  cbn [bufidx blockSize windowSize data buffer items detector set_counters].
  rewrite (int_add_id (bufidx s)) by (unfold is_int, int_min, int_max in *; lia).
  rewrite (proj2 (Z.ltb_ge _ _)) by lia.
  unfold bind at 1. rewrite slice_from_in by lia.
  unfold bind at 1. rewrite slice_from_in by (rewrite Hd2; lia).
  destruct (copy_keeps h1
              {| arr := arr (data s); off := (off (data s) + Z.to_nat 0)%nat;
                 len := (len (data s) - Z.to_nat 0)%nat |}
              {| arr := arr (data s); off := (off (data s) + Z.to_nat (blockSize s))%nat;
                 len := (len (data s) - Z.to_nat (blockSize s))%nat |}
              (Z.to_nat (windowSize s)) (Z.to_nat (windowSize s)))
    as (k2 & h2 & Hcopy2 & Hk2); cbn [arr off len]; try (by apply Hk1); try lia.
  unfold bind at 1. rewrite Hcopy2.
  rewrite int_sub_id by (unfold is_int, int_min, int_max in *; lia).
  unfold bind at 1. rewrite slice_from_in by (rewrite Hd2; lia).
  destruct (copy_keeps h2
              {| arr := arr (data s);
                 off := (off (data s) + Z.to_nat (windowSize s - blockSize s))%nat;
                 len := (len (data s) - Z.to_nat (windowSize s - blockSize s))%nat |}
              (buffer s)
              (Z.to_nat (windowSize s)) (Z.to_nat (blockSize s)))
    as (k3 & h3 & Hcopy3 & Hk3); cbn [arr off len];
    try (by apply Hk2, Hk1); try lia.
  unfold bind at 1. rewrite Hcopy3.
  assert (keeps_lens h h3) as Hk by eauto using keeps_lens_trans.
  destruct (int_add (items s) 1 <? windowSize s) eqn:Hitems.
  - exists None, h3. by split; [|split].
  - destruct (Check_keeps h3 (detector s) (data s) (Z.to_nat (windowSize s)))
      as (r & h4 & Hcheck & Hk4); try done; try (by apply Hk); try lia.
    exists r, h4. unfold bind. rewrite Hcheck. split; [done|].
    split; [eauto using keeps_lens_trans|].
    apply Z.ltb_ge in Hitems. lia.
Qed.


End StreamProofs.

Section StreamRuns.

Variable Welch : Stats -> Stats -> float64.

Lemma push_all_cons s x xs h :
  push_all Welch s (x :: xs) h
  = match Stream_Push Welch s x h with
    | Returns ((s1, r), h1) =>
        match push_all Welch s1 xs h1 with
        | Returns ((s2, rs), h2) => Returns ((s2, r :: rs), h2)
        | Panics => Panics
        end
    | Panics => Panics
    end.
Proof.
  cbn [push_all]. unfold bind.
  destruct (Stream_Push Welch s x h) as [[[s1 r] h1]|]; [|done]. cbn [fst snd].
  by destruct (push_all Welch s1 xs h1) as [[[s2 rs] h2]|].
Qed.

(** A run of pushes on a stream with a block no longer than its window. *)
Lemma push_all_returns xs : forall s h,
  stream_wf h s -> blockSize s <= windowSize s -> valid_detector (detector s) ->
  exists s' rs h',
    push_all Welch s xs h = Returns ((s', rs), h')
    /\ length rs = length xs
    /\ (forall k : nat, 0 <= items s -> items s + Z.of_nat k + 1 < windowSize s ->
          (k < length xs)%nat -> rs !! k = Some None)
    /\ (forall (k : nat) cp, rs !! k = Some (Some cp) ->
          (bufidx s + Z.of_nat k + 1) mod blockSize s = 0).
Proof.
  induction xs as [|x xs IH]; intros s h Hwf HBW Hdet.
  - exists s, [], h. cbn. split; [done|]. split; [done|]. split.
    + intros k _ _ Hk. lia.
    + intros k cp Hk. done.
  - pose proof Hwf as (HW & HB & _ & _ & _ & _ & _ & _ & Hi).
    assert (exists b r h1,
               Stream_Push Welch s x h
               = Returns ((set_counters s b (int_add (items s) 1), r), h1)
               /\ keeps_lens h h1
               /\ 0 <= b < blockSize s
               /\ ((b = bufidx s + 1 /\ r = None)
                   \/ (b = 0 /\ bufidx s + 1 = blockSize s))
               /\ (int_add (items s) 1 < windowSize s -> r = None))
      as (b & r & h1 & Hpush & Hkeep & Hb & Hmod & Hfirst).
    { destruct (decide (bufidx s + 1 < blockSize s)) as [Hmid|Hfull].
      - destruct (Push_mid_block Welch h s x Hwf Hmid) as (h1 & Hpush & Hk).
        exists (bufidx s + 1), None, h1.
        split; [done|]. split; [done|]. split; [lia|]. split; [by left|done].
      - destruct (Push_full_block Welch h s x Hwf) as (r & h1 & Hpush & Hk & Hnone);
          try done; try lia.
        exists 0, r, h1.
        split; [done|]. split; [done|]. split; [lia|]. split; [right; lia|done]. }
    rewrite push_all_cons, Hpush.
    destruct (IH (set_counters s b (int_add (items s) 1)) h1)
      as (s' & rs & h' & Hrun & Hlen & Hnil & Hsome).
    { by apply (stream_wf_set_counters h h1). }
    { done. }
    { done. }
    rewrite Hrun. exists s', (r :: rs), h'. split; [done|].
    cbn [windowSize blockSize items bufidx set_counters] in Hnil, Hsome.
    split; [cbn; lia|]. split.
    + intros k Hpos Hk Hklen.
      assert (int_add (items s) 1 = items s + 1) as Hadd.
      { apply int_add_id. unfold is_int, int_min, int_max in *. lia. }
      destruct k as [|k]; cbn.
      * f_equal. apply Hfirst. lia.
      * apply Hnil; cbn in Hklen; lia.
    + intros k cp Hk. destruct k as [|k]; cbn in Hk.
      * injection Hk as ->. destruct Hmod as [[_ ?]|[_ Hfull]]; [done|].
        replace (bufidx s + Z.of_nat 0 + 1) with (blockSize s) by lia.
        apply Z_mod_same_full.
      * specialize (Hsome k cp Hk). destruct Hmod as [[-> _]|[-> Hfull]].
        -- by replace (bufidx s + Z.of_nat (S k) + 1)
             with (bufidx s + 1 + Z.of_nat k + 1) by lia.
        -- replace (bufidx s + Z.of_nat (S k) + 1)
             with (0 + Z.of_nat k + 1 + 1 * blockSize s) by lia.
           by rewrite Z_mod_plus_full.
Qed.


Lemma NewStream_returns W m B c h :
  0 <= W -> 0 <= B ->
  NewStream W m B c h
  = Returns ({| windowSize := W; blockSize := B;
                data := {| arr := length h; off := 0; len := Z.to_nat W |};
                items := 0;
                buffer := {| arr := S (length h); off := 0; len := Z.to_nat B |};
                bufidx := 0;
                detector := {| MinSampleSize := m; MinConfidence := c |} |},
             h ++ [replicate (Z.to_nat W) 0%float; replicate (Z.to_nat B) 0%float]).
Proof.
  intros HW HB. unfold NewStream, bind, make.
  rewrite !(proj2 (Z.ltb_ge _ _)) by lia. unfold ret.
  rewrite length_app, <- app_assoc. cbn [length app].
  by replace (length h + 1)%nat with (S (length h)) by lia.
Qed.


Lemma NewStream_wf W m B c h :
  0 <= W <= int_max -> 1 <= B <= int_max ->
  exists s h',
    NewStream W m B c h = Returns (s, h')
    /\ stream_wf h' s
    /\ windowSize s = W /\ blockSize s = B /\ items s = 0 /\ bufidx s = 0
    /\ detector s = {| MinSampleSize := m; MinConfidence := c |}.
Proof.
  intros HW HB. eexists _, _. split; [apply NewStream_returns; lia|].
  split; [|done]. repeat split; cbn; try lia.
  - eexists. split; [by apply list_lookup_middle|]. apply length_replicate.
  - eexists. split; [|apply length_replicate].
    change (h ++ [replicate (Z.to_nat W) 0%float; replicate (Z.to_nat B) 0%float])
      with (h ++ [replicate (Z.to_nat W) 0%float] ++ [replicate (Z.to_nat B) 0%float]).
    rewrite app_assoc. apply list_lookup_middle. rewrite length_app. cbn. lia.
Qed.

(** C6.  For a stream made by [NewStream] with
    [1 <= blockSize <= windowSize] and a minimum sample size that is not
    negative, every run of pushes returns; each of the first
    [windowSize - 1] pushes returns [nil]; a push returns a change point
    only when it fills a block, so two such pushes are at least
    [blockSize] apart; and a push that leaves the block buffer not yet full
    writes the buffer and returns [nil] without calling the detector. *)
Theorem Push_nil_until_window_full W m B c xs :
  1 <= B <= W -> W <= int_max -> 0 <= m <= int_max ->
  exists rs,
    stream_results Welch W m B c xs = Returns rs
    /\ length rs = length xs
    /\ (forall k : nat, Z.of_nat k + 1 < W -> (k < length xs)%nat ->
          rs !! k = Some None)
    /\ (forall (k : nat) cp, rs !! k = Some (Some cp) -> (Z.of_nat k + 1) mod B = 0)
    /\ (forall (i j : nat) cp cp', (i < j)%nat ->
          rs !! i = Some (Some cp) -> rs !! j = Some (Some cp') ->
          B <= Z.of_nat j - Z.of_nat i)
    /\ (forall s x h, (int_add (bufidx s) 1 <? blockSize s) = true ->
          Stream_Push Welch s x h
          = (assign (buffer s) (bufidx s) x;;
             ret (set_counters s (int_add (bufidx s) 1) (int_add (items s) 1), None)) h).
Proof.
  intros HB HW Hm.
  destruct (NewStream_wf W m B c []) as (s & h & Hnew & Hwf & <- & <- & Hit & Hbi & Hdet);
    [lia|lia|].
  destruct (push_all_returns xs s h Hwf) as (s' & rs & h' & Hrun & Hlen & Hnil & Hsome).
  { lia. }
  { rewrite Hdet. done. }
  rewrite Hit in Hnil. rewrite Hbi in Hsome.
  exists rs. split; [|split; [done|split; [|split; [|split]]]].
  - unfold stream_results, bind. by rewrite Hnew, Hrun.
  - intros k Hk Hklen. apply Hnil; (done || lia).
  - intros k cp Hk. by rewrite <- (Hsome k cp Hk).
  - intros i j cp cp' Hij Hi Hj.
    pose proof (Hsome i cp Hi) as Hmi. pose proof (Hsome j cp' Hj) as Hmj.
    apply Z.mod_divide in Hmi, Hmj; try lia.
    destruct Hmi as [qi Hqi], Hmj as [qj Hqj].
    assert (Z.of_nat j - Z.of_nat i = (qj - qi) * blockSize s) as Hd by lia.
    assert (0 < qj - qi) by nia. nia.
  - intros s0 x h0 Hmid. unfold Stream_Push, bind.
    destruct (assign (buffer s0) (bufidx s0) x h0) as [[[] h1]|]; [|done].
    cbn [bufidx blockSize set_counters]. by rewrite Hmid.
Qed.


End StreamRuns.

(** ** The theorems at concrete inputs *)

Lemma example_detector_valid : valid_detector example_detector.
Proof. unfold valid_detector, int_max. cbn. lia. Qed.

(** The search on [[1]*10 + [2]*10] with a minimum sample size of 5. *)
Lemma Check_selects_earliest_maximum_witness :
  valid_detector example_detector /\ valid_window ones_then_twos
  /\ exists st,
      search 5 ones_then_twos = Returns st
      /\ check_window (fixed_confidence 0.99) example_detector ones_then_twos
         = Returns (conclude (fixed_confidence 0.99) example_detector st)
      /\ ((st = scan0
            /\ forall l, candidate ones_then_twos 5 l ->
                 (0 <? between_class_scatter ones_then_twos l)%float = false)
          \/ (earliest_maximum ones_then_twos 5 (maxsbIdx st)
              /\ maxsb st = between_class_scatter ones_then_twos (maxsbIdx st)
              /\ Len (before st) = maxsbIdx st
              /\ Len (after st) = 20 - maxsbIdx st
              /\ Mean (before st) = mean_before ones_then_twos (maxsbIdx st)
              /\ Mean (after st) = mean_after ones_then_twos (maxsbIdx st))).
Proof.
  split; [exact example_detector_valid|]. split; [short_window|].
  apply (Check_selects_earliest_maximum (fixed_confidence 0.99) example_detector
           ones_then_twos example_detector_valid).
  short_window.
Defined.




Lemma all_ones_candidate l :
  candidate all_ones 5 l ->
  l = 5 \/ l = 6 \/ l = 7 \/ l = 8 \/ l = 9 \/ l = 10 \/ l = 11 \/ l = 12 \/ l = 13
  \/ l = 14 \/ l = 15 \/ l = 16 \/ l = 17 \/ l = 18.
Proof. intros Hl. assert (5 <= l <= 18) by exact Hl. lia. Qed.




(** A window of 3 values with a minimum sample size of 5. *)
Lemma short_window_returns_nil_witness :
  candidates 3 5 = []
  /\ check_window (fixed_confidence 0.99) example_detector [1; 2; 3]%float = Returns None
  /\ forall h s, holds h s [1; 2; 3]%float ->
       Detector_Check (fixed_confidence 0.99) example_detector s h
       = Returns (None, h ++ [cumsum_of [1; 2; 3]%float; cumsumsq_of [1; 2; 3]%float]).
Proof.
  apply (short_window_returns_nil (fixed_confidence 0.99) example_detector [1; 2; 3]%float).
  - exact example_detector_valid.
  - short_window.
  - vm_compute. reflexivity.
  - vm_compute. reflexivity.
Defined.




(** Two calls on the example of the specification. *)
Lemma Check_twice_same_result_witness :
  exists r h' h'',
    Detector_Check (fixed_confidence 0.99) example_detector
      {| arr := 0%nat; off := 0; len := 20 |} [ones_then_twos] = Returns (r, h')
    /\ holds h' {| arr := 0%nat; off := 0; len := 20 |} ones_then_twos
    /\ Detector_Check (fixed_confidence 0.99) example_detector
         {| arr := 0%nat; off := 0; len := 20 |} h' = Returns (r, h'').
Proof.
  apply (Check_twice_same_result (fixed_confidence 0.99) example_detector
           {| arr := 0%nat; off := 0; len := 20 |} [ones_then_twos] ones_then_twos).
  - exact (holds_only ones_then_twos).
  - exact example_detector_valid.
  - short_window.
Defined.

(** The store after a call on the example of the specification. *)
Lemma Check_leaves_window_witness :
  (forall r h',
     Detector_Check (fixed_confidence 0.99) example_detector
       {| arr := 0%nat; off := 0; len := 20 |} [ones_then_twos] = Returns (r, h') ->
     holds h' {| arr := 0%nat; off := 0; len := 20 |} ones_then_twos
     /\ (forall (i : nat) a, [ones_then_twos] !! i = Some a -> h' !! i = Some a)
     /\ h' = [ones_then_twos] ++ [cumsum_of ones_then_twos; cumsumsq_of ones_then_twos])
  /\ (exists r h',
        Detector_Check (fixed_confidence 0.99) example_detector
          {| arr := 0%nat; off := 0; len := 20 |} [ones_then_twos] = Returns (r, h')).
Proof.
  destruct (Check_leaves_window (fixed_confidence 0.99) example_detector
              {| arr := 0%nat; off := 0; len := 20 |} [ones_then_twos] ones_then_twos
              (holds_only ones_then_twos)) as [Hframe Hreturns].
  split; [exact Hframe|]. apply Hreturns; [exact example_detector_valid|short_window].
Defined.

(** A stream of window 4 and block 2, fed six values. *)
Lemma Push_nil_until_window_full_witness :
  exists rs,
    stream_results (fixed_confidence 0.99) 4 1 2 0.8 [1; 1; 5; 5; 5; 5]%float = Returns rs
    /\ length rs = 6%nat
    /\ (forall k : nat, Z.of_nat k + 1 < 4 -> (k < 6)%nat -> rs !! k = Some None)
    /\ (forall (k : nat) cp, rs !! k = Some (Some cp) -> (Z.of_nat k + 1) mod 2 = 0)
    /\ (forall (i j : nat) cp cp', (i < j)%nat ->
          rs !! i = Some (Some cp) -> rs !! j = Some (Some cp') ->
          2 <= Z.of_nat j - Z.of_nat i).
Proof.
  destruct (Push_nil_until_window_full (fixed_confidence 0.99) 4 1 2 0.8
              [1; 1; 5; 5; 5; 5]%float)
    as (rs & H1 & H2 & H3 & H4 & H5 & _).
  - lia.
  - unfold int_max. lia.
  - unfold int_max. lia.
  - exists rs. split; [exact H1|]. split; [exact H2|]. split; [exact H3|].
    split; [exact H4|exact H5].
Defined.



(** * Further properties of the package *)

(** ** The window of a stream *)

Lemma length_window_after W ys : length (window_after W ys) = W.
Proof.
  unfold window_after. rewrite length_drop, length_app, length_replicate. lia.
Qed.

Lemma window_after_nil W : window_after W [] = replicate W 0%float.
Proof. unfold window_after. cbn. by rewrite app_nil_r. Qed.

(** Shifting a block in drops as many of the oldest values. *)
Lemma window_after_app W ys blk :
  (length blk <= W)%nat ->
  window_after W (ys ++ blk) = drop (length blk) (window_after W ys) ++ blk.
Proof.
  intros Hle. unfold window_after.
  rewrite length_app, app_assoc, <- drop_drop.
  rewrite (drop_app_le (replicate W 0%float ++ ys)) by (rewrite length_app; lia).
  rewrite drop_app_le; [done|].
  rewrite length_drop, length_app, length_replicate. lia.
Qed.

(** Once [W] values were shifted in, the window is the last [W] of them. *)
Lemma window_after_full W ys :
  (W <= length ys)%nat -> window_after W ys = drop (length ys - W) ys.
Proof.
  intros Hle. unfold window_after.
  rewrite drop_app_ge by (rewrite length_replicate; lia).
  by rewrite length_replicate.
Qed.

Lemma insert_last (b blk : list float64) x :
  length b = S (length blk) -> take (length blk) b = blk ->
  <[length blk := x]> b = blk ++ [x].
Proof.
  intros Hlen Htake. rewrite <- (take_drop (length blk) b), Htake.
  rewrite <- (Nat.add_0_r (length blk)) at 1. rewrite insert_app_r.
  f_equal. assert (length (drop (length blk) b) = 1%nat) as Hd
    by (rewrite length_drop; lia).
  destruct (drop (length blk) b) as [|y [|? ?]]; cbn in *; try lia. done.
Qed.

Lemma take_insert_next (b blk : list float64) x :
  (length blk < length b)%nat -> take (length blk) b = blk ->
  take (length (blk ++ [x])) (<[length blk := x]> b) = blk ++ [x].
Proof.
  intros Hlt Htake. rewrite length_app. cbn [length].
  replace (length blk + 1)%nat with (S (length blk)) by lia.
  erewrite take_S_r by (by apply list_lookup_insert_eq).
  by rewrite take_insert_ge, Htake by lia.
Qed.

Lemma wrap_wrap_add a b : wrap (wrap a + b) = wrap (a + b).
Proof.
  unfold wrap. f_equal.
  replace ((a + 2 ^ 63) mod 2 ^ 64 - 2 ^ 63 + b + 2 ^ 63)
    with ((a + 2 ^ 63) mod 2 ^ 64 + b) by lia.
  rewrite Zplus_mod_idemp_l. f_equal. lia.
Qed.

Lemma assign_exact (h : heap) s (a : list float64) (i : nat) v :
  h !! arr s = Some a -> (i < len s)%nat ->
  assign s (Z.of_nat i) v h = Returns (tt, <[arr s := <[(off s + i)%nat := v]> a]> h).
Proof.
  intros Ha Hi. unfold assign. rewrite in_bounds_true by done.
  by rewrite Ha, Nat2Z.id.
Qed.

Lemma copy_exact (h : heap) dst src (a_dst a_src : list float64) :
  h !! arr src = Some a_src -> h !! arr dst = Some a_dst ->
  copy dst src h
  = Returns (Z.of_nat (Nat.min (len dst) (len src)),
             <[arr dst := take (off dst) a_dst
                            ++ take (Nat.min (len dst) (len src)) (drop (off src) a_src)
                            ++ drop (off dst + Nat.min (len dst) (len src)) a_dst]> h).
Proof. intros Hs Hd. unfold copy. by rewrite Hs, Hd. Qed.

(** The two copies of [Push]: the window loses its [B] oldest values and
    gains the block. *)
Lemma shift_window (a blk : list float64) (W B : nat) :
  length a = W -> length blk = B -> (B <= W)%nat ->
  let a1 := take 0 a ++ take (Nat.min (W - 0) (W - B)) (drop (0 + B) a)
              ++ drop (0 + Nat.min (W - 0) (W - B)) a in
  take (0 + (W - B)) a1
    ++ take (Nat.min (W - (W - B)) B) (drop 0 blk)
    ++ drop (0 + (W - B) + Nat.min (W - (W - B)) B) a1
  = drop B a ++ blk.
Proof.
  intros Ha Hb Hle a1.
  assert (a1 = drop B a ++ drop (W - B) a) as ->.
  { unfold a1. rewrite take_0, !Nat.add_0_l. cbn [app].
    replace (Nat.min (W - 0) (W - B)) with (W - B)%nat by lia.
    rewrite (take_ge (drop B a)) by (rewrite length_drop; lia). done. }
  replace (Nat.min (W - (W - B)) B) with B by lia.
  rewrite !Nat.add_0_l, drop_0.
  rewrite take_app_le by (rewrite length_drop; lia).
  rewrite (take_ge (drop B a)) by (rewrite length_drop; lia).
  rewrite (take_ge blk) by lia.
  rewrite (drop_ge (drop B a ++ drop (W - B) a))
    by (rewrite length_app, !length_drop; lia).
  by rewrite app_nil_r.
Qed.

Section StreamContents.

Variable Welch : Stats -> Stats -> float64.

Lemma Push_mid_exact W B d done blk h s x :
  stream_at W B d done blk h s -> 1 <= B <= int_max ->
  Z.of_nat (length blk) + 1 < B ->
  exists s' h',
    Stream_Push Welch s x h = Returns ((s', None), h')
    /\ stream_at W B d done (blk ++ [x]) h' s'
    /\ length h' = length h.
Proof.
  intros (HW & HB & Hd & Hdo & Hdl & Hbo & Hbl & Hne & Hdata & (b & Hbuf & Hblen & Hbtake)
          & Hidx & Hitems) HBr Hmid.
  unfold Stream_Push. unfold bind at 1. rewrite Hidx.
  rewrite (assign_exact h (buffer s) b) by (done || lia).
  cbn [bufidx blockSize set_counters]. rewrite Hbo, HB. cbn [Nat.add].
  rewrite int_add_id by (unfold is_int, int_min, int_max in *; lia).
  rewrite (proj2 (Z.ltb_lt _ _) Hmid).
  eexists _, _. split; [done|]. split; [|by rewrite length_insert].
  unfold stream_at. cbn [windowSize blockSize detector data buffer bufidx items set_counters].
  split; [done|]. split; [done|]. split; [done|]. split; [done|]. split; [done|].
  split; [done|]. split; [done|]. split; [done|]. split.
  { by rewrite list_lookup_insert_ne. }
  split.
  { exists (<[length blk := x]> b). split.
    - apply list_lookup_insert_eq. by eapply lookup_lt_Some.
    - split; [by rewrite length_insert|]. apply take_insert_next; [lia|done]. }
  split.
  { rewrite length_app. cbn. lia. }
  unfold int_add. rewrite Hitems, wrap_wrap_add. f_equal.
  rewrite length_app. cbn. lia.
Qed.

Lemma Push_full_exact W B d done blk h s x :
  stream_at W B d done blk h s -> 1 <= B <= W -> W <= int_max ->
  Z.of_nat (length blk) + 1 = B -> valid_detector d ->
  exists s' r h',
    Stream_Push Welch s x h = Returns ((s', r), h')
    /\ stream_at W B d (done ++ blk ++ [x]) [] h' s'
    /\ (if wrap (Z.of_nat (length done + length blk) + 1) <? W
        then r = None /\ length h' = length h
        else detect Welch d (window_after (Z.to_nat W) (done ++ blk ++ [x])) = Returns r).
Proof.
  intros (HW & HB & Hd & Hdo & Hdl & Hbo & Hbl & Hne & Hdata & (b & Hbuf & Hblen & Hbtake)
          & Hidx & Hitems) HBr HWr Hfull Hdet.
  assert (arr (data s) < length h)%nat as Hdlt by (by eapply lookup_lt_Some).
  assert (arr (buffer s) < length h)%nat as Hblt by (by eapply lookup_lt_Some).
  set (a := window_after (Z.to_nat W) done) in *.
  assert (length a = Z.to_nat W) as Halen by apply length_window_after.
  set (b1 := blk ++ [x]).
  assert (length b1 = Z.to_nat B) as Hb1len by (unfold b1; rewrite length_app; cbn; lia).
  unfold Stream_Push. unfold bind at 1. rewrite Hidx.
  rewrite (assign_exact h (buffer s) b) by (done || lia).
  rewrite Hbo. cbn [Nat.add].
  rewrite insert_last by (done || lia). fold b1.
  set (h1 := <[arr (buffer s) := b1]> h).
  assert (h1 !! arr (data s) = Some a) as Hd1 by (unfold h1; by rewrite list_lookup_insert_ne).
  assert (h1 !! arr (buffer s) = Some b1) as Hb1
    by (unfold h1; by apply list_lookup_insert_eq).
  cbn [bufidx blockSize windowSize data buffer items detector set_counters].
  rewrite HB, HW.
  rewrite int_add_id by (unfold is_int, int_min, int_max in *; lia).
  rewrite (proj2 (Z.ltb_ge _ _)) by lia.
  unfold bind at 1. rewrite slice_from_in by lia.
  unfold bind at 1. rewrite slice_from_in by (rewrite Hdl; lia).
  unfold bind at 1.
  rewrite (copy_exact h1 _ _ a a) by done.
  cbn [arr off len]. rewrite Hdo, Hdl.
  rewrite int_sub_id by (unfold is_int, int_min, int_max in *; lia).
  unfold bind at 1. rewrite slice_from_in by (rewrite Hdl; lia).
  unfold bind at 1.
  set (a1 := take (0 + Z.to_nat 0) a ++ _ ++ _).
  set (h2 := <[arr (data s) := a1]> h1).
  assert (length h1 = length h) as Hlen1 by (unfold h1; by rewrite length_insert).
  assert (h2 !! arr (data s) = Some a1) as Hd2
    by (unfold h2; apply list_lookup_insert_eq; lia).
  assert (h2 !! arr (buffer s) = Some b1) as Hb2
    by (unfold h2; rewrite list_lookup_insert_ne; done).
  rewrite (copy_exact h2 _ _ a1 b1) by done.
  cbn [arr off len]. rewrite Hdo, Hdl, Hbo, Hbl.
  set (a2 := take _ a1 ++ _ ++ _).
  assert (a2 = drop (Z.to_nat B) a ++ b1) as Ha2.
  { pose proof (shift_window a b1 (Z.to_nat W) (Z.to_nat B) Halen Hb1len ltac:(lia)) as Hs.
    cbn zeta in Hs. rewrite <- Hs. unfold a2, a1.
    replace (Z.to_nat 0) with 0%nat by done.
    replace (Z.to_nat (W - B)) with (Z.to_nat W - Z.to_nat B)%nat by lia.
    done. }
  assert (a2 = window_after (Z.to_nat W) (done ++ blk ++ [x])) as Hwin.
  { rewrite Ha2. fold b1. rewrite window_after_app by lia. by rewrite Hb1len. }
  set (h3 := <[arr (data s) := a2]> h2).
  assert (length h2 = length h) as Hlen2 by (unfold h2; rewrite length_insert; lia).
  assert (h3 !! arr (data s) = Some a2) as Hd3
    by (unfold h3; apply list_lookup_insert_eq; lia).
  assert (h3 !! arr (buffer s) = Some b1) as Hb3
    by (unfold h3; rewrite list_lookup_insert_ne; done).
  assert (length h3 = length h) as Hlen3 by (unfold h3; rewrite length_insert; lia).
  assert (forall h', (forall (i : nat) c, h3 !! i = Some c -> h' !! i = Some c) ->
            stream_at W B d (done ++ blk ++ [x]) [] h'
              (set_counters (set_counters s (Z.of_nat (length blk) + 1) (int_add (items s) 1))
                 0 (int_add (items s) 1))) as Hinv.
  { intros h' Hext. unfold stream_at.
    cbn [windowSize blockSize detector data buffer bufidx items set_counters].
    split; [done|]. split; [done|]. split; [done|]. split; [done|]. split; [done|].
    split; [done|]. split; [done|]. split; [done|]. split.
    { rewrite <- Hwin. by apply Hext. }
    split.
    { exists b1. split; [by apply Hext|]. split; [done|]. by cbn. }
    split; [done|].
    rewrite Hitems. unfold int_add. rewrite wrap_wrap_add. f_equal.
    rewrite !length_app. cbn. lia. }
  assert (int_add (items s) 1 = wrap (Z.of_nat (length done + length blk) + 1)) as Hit.
  { rewrite Hitems. unfold int_add. by rewrite wrap_wrap_add. }
  rewrite Hit.
  destruct (wrap (Z.of_nat (length done + length blk) + 1) <? W) eqn:Hsmall.
  - eexists _, None, h3. split; [done|]. rewrite <- Hit. split; [by apply Hinv|].
    by split.
  - assert (holds h3 (data s) a2) as Hholds.
    { assert (length a2 = Z.to_nat W) as Hl2
        by (rewrite Hwin; apply length_window_after).
      exists a2. rewrite Hdo, Hdl, drop_0. split; [done|].
      rewrite take_ge by lia. done. }
    assert (valid_window a2) as Hvw.
    { unfold valid_window. rewrite Hwin, length_window_after. lia. }
    destruct (detect_returns Welch d a2 Hdet Hvw) as [r Hr].
    exists (set_counters (set_counters s (Z.of_nat (length blk) + 1) (int_add (items s) 1))
              0 (int_add (items s) 1)), r, (h3 ++ [cumsum_of a2; cumsumsq_of a2]).
    unfold bind. rewrite Hd.
    rewrite (Detector_Check_detect Welch d (data s) h3 a2 Hholds), Hr.
    rewrite <- Hit. split; [done|]. split. 2:{ unfold b1. by rewrite <- Hwin. }
    apply Hinv. intros i c Hi. rewrite lookup_app_l; [done|]. by eapply lookup_lt_Some.
Qed.

End StreamContents.

Section StreamRunsExact.

Variable Welch : Stats -> Stats -> float64.

(** A run of pushes, value by value: the state it ends in and the result of
    each push. *)
Lemma push_all_exact W B d xs : forall done blk s h,
  1 <= B <= W -> W <= int_max -> valid_detector d ->
  stream_at W B d done blk h s -> Z.of_nat (length blk) < B ->
  exists s' rs h' done' blk',
    push_all Welch s xs h = Returns ((s', rs), h')
    /\ stream_at W B d done' blk' h' s'
    /\ done' ++ blk' = done ++ blk ++ xs
    /\ Z.of_nat (length blk') = (Z.of_nat (length blk) + Z.of_nat (length xs)) mod B
    /\ length rs = length xs
    /\ forall (k : nat) r, rs !! k = Some r ->
         if ((Z.of_nat (length blk) + Z.of_nat k + 1) mod B =? 0)
            && negb (wrap (Z.of_nat (length done + length blk + k + 1)) <? W)
         then detect Welch d
                (window_after (Z.to_nat W)
                   (take (length done + length blk + k + 1) (done ++ blk ++ xs)))
              = Returns r
         else r = None.
Proof.
  induction xs as [|x xs IH]; intros done blk s h HB HW Hd Hat Hblk.
  - exists s, [], h, done, blk. split; [done|]. split; [done|].
    split; [by rewrite app_nil_r|]. split.
    { cbn [length]. rewrite Z.add_0_r, Z.mod_small; lia. }
    split; [done|]. intros k r Hk. done.
  - rewrite push_all_cons.
    destruct (decide (Z.of_nat (length blk) + 1 < B)) as [Hmid|Hfull].
    + destruct (Push_mid_exact Welch W B d done blk h s x Hat ltac:(lia) Hmid)
        as (s1 & h1 & -> & Hat1 & _).
      destruct (IH done (blk ++ [x]) s1 h1 HB HW Hd Hat1)
        as (s' & rs & h' & done' & blk' & -> & Hat' & Hall & Hmod & Hlen & Hres).
      { rewrite length_app. cbn. lia. }
      exists s', (None :: rs), h', done', blk'. split; [done|]. split; [done|].
      split; [by rewrite Hall, <- !app_assoc|]. split.
      { rewrite Hmod, length_app. cbn [length]. f_equal. lia. }
      split; [cbn; lia|]. intros k r Hk. destruct k as [|k]; cbn in Hk.
      * injection Hk as <-.
        replace ((Z.of_nat (length blk) + Z.of_nat 0 + 1) mod B =? 0) with false; [done|].
        symmetry. apply Z.eqb_neq. rewrite Z.mod_small; lia.
      * specialize (Hres k r Hk). rewrite length_app in Hres. cbn [length] in Hres.
        replace (Z.of_nat (length blk + 1) + Z.of_nat k + 1)
          with (Z.of_nat (length blk) + Z.of_nat (S k) + 1) in Hres by lia.
        replace (length done + (length blk + 1) + k + 1)%nat
          with (length done + length blk + S k + 1)%nat in Hres by lia.
        by rewrite <- !app_assoc in Hres.
    + destruct (Push_full_exact Welch W B d done blk h s x Hat HB HW ltac:(lia) Hd)
        as (s1 & r1 & h1 & -> & Hat1 & Hr1).
      destruct (IH (done ++ blk ++ [x]) [] s1 h1 HB HW Hd Hat1)
        as (s' & rs & h' & done' & blk' & -> & Hat' & Hall & Hmod & Hlen & Hres).
      { cbn. lia. }
      exists s', (r1 :: rs), h', done', blk'. split; [done|]. split; [done|].
      split; [by rewrite Hall; cbn; rewrite <- !app_assoc|]. split.
      { rewrite Hmod. cbn [length].
        replace (Z.of_nat (length blk) + Z.of_nat (S (length xs)))
          with (Z.of_nat 0 + Z.of_nat (length xs) + 1 * B) by lia.
        by rewrite Z_mod_plus_full. }
      split; [cbn; lia|]. intros k r Hk. destruct k as [|k]; cbn in Hk.
      * injection Hk as <-.
        replace (Z.of_nat (length blk) + Z.of_nat 0 + 1) with B by lia.
        rewrite Z_mod_same_full. cbn [Z.eqb andb].
        replace (Z.of_nat (length done + length blk + 0 + 1))
          with (Z.of_nat (length done + length blk) + 1) by lia.
        destruct (wrap (Z.of_nat (length done + length blk) + 1) <? W).
        -- cbn. by destruct Hr1.
        -- cbn. rewrite <- Hr1. do 2 f_equal.
           replace (done ++ blk ++ x :: xs) with ((done ++ blk ++ [x]) ++ xs)
             by (by rewrite <- !app_assoc).
           replace (length done + length blk + 0 + 1)%nat
             with (length (done ++ blk ++ [x])) by (rewrite !length_app; cbn; lia).
           apply take_app_length.
      * specialize (Hres k r Hk). rewrite !length_app in Hres. cbn [length] in Hres.
        replace (Z.of_nat 0 + Z.of_nat k + 1)
          with (Z.of_nat (length blk) + Z.of_nat (S k) + 1 - 1 * B) in Hres by lia.
        rewrite Zminus_mod, Z_mod_mult, Z.sub_0_r, Z.mod_mod in Hres by lia.
        replace (length done + (length blk + 1) + 0 + k + 1)%nat
          with (length done + length blk + S k + 1)%nat in Hres by lia.
        cbn [app] in Hres. by rewrite <- !app_assoc in Hres.
Qed.

End StreamRunsExact.

Section StreamTheorems.

Variable Welch : Stats -> Stats -> float64.

Lemma stream_results_run W m B c xs :
  stream_results Welch W m B c xs
  = match stream_run Welch W m B c xs with
    | Returns (sr, _) => Returns (snd sr)
    | Panics => Panics
    end.
Proof. done. Qed.

Lemma NewStream_at W m B c :
  0 <= W -> 0 <= B ->
  exists s h,
    NewStream W m B c [] = Returns (s, h)
    /\ stream_at W B {| MinSampleSize := m; MinConfidence := c |} [] [] h s.
Proof.
  intros HW HB. eexists _, _. split; [by apply NewStream_returns|].
  unfold stream_at.
  cbn [windowSize blockSize detector data buffer bufidx items arr off len length app].
  split; [done|]. split; [done|]. split; [done|]. split; [done|]. split; [done|].
  split; [done|]. split; [done|]. split; [done|]. split.
  { by rewrite window_after_nil. }
  split; [|done].
  eexists. split; [done|]. split; [apply length_replicate|done].
Qed.

Lemma run_exact W m B c xs :
  1 <= B <= W -> W <= int_max -> 0 <= m <= int_max ->
  let d := {| MinSampleSize := m; MinConfidence := c |} in
  exists s rs h seen pending,
    stream_run Welch W m B c xs = Returns ((s, rs), h)
    /\ stream_at W B d seen pending h s
    /\ seen ++ pending = xs
    /\ Z.of_nat (length pending) = Z.of_nat (length xs) mod B
    /\ length rs = length xs
    /\ forall (k : nat) r, rs !! k = Some r ->
         if ((Z.of_nat k + 1) mod B =? 0) && negb (wrap (Z.of_nat (k + 1)) <? W)
         then detect Welch d (window_after (Z.to_nat W) (take (k + 1) xs)) = Returns r
         else r = None.
Proof.
  intros HB HW Hm d.
  destruct (NewStream_at W m B c) as (s0 & h0 & Hnew & Hat0); [lia|lia|].
  destruct (push_all_exact Welch W B d xs [] [] s0 h0 HB HW Hm Hat0)
    as (s & rs & h & seen & pending & Hrun & Hat & Hall & Hmod & Hlen & Hres).
  { cbn. lia. }
  exists s, rs, h, seen, pending. unfold stream_run, bind. rewrite Hnew, Hrun.
  split; [done|]. split; [done|]. split; [done|]. split; [done|]. split; [done|].
  intros k r Hk. apply (Hres k r Hk).
Qed.

(** X1.  For a stream made by [NewStream] with
    [1 <= blockSize <= windowSize], every run of pushes returns and leaves
    in [Window()] the last [windowSize] values of the completed blocks in
    the order they were pushed, after the zeros of [make] while fewer were
    shifted in; the values of the block not yet complete are the first
    [bufidx] elements of the block buffer. *)
Theorem Window_holds_last_values W m B c xs :
  1 <= B <= W -> W <= int_max -> 0 <= m <= int_max ->
  exists s rs h seen pending,
    stream_run Welch W m B c xs = Returns ((s, rs), h)
    /\ seen ++ pending = xs
    /\ Z.of_nat (length pending) = Z.of_nat (length xs) mod B
    /\ holds h (Stream_Window s) (window_after (Z.to_nat W) seen)
    /\ (W <= Z.of_nat (length seen) ->
        window_after (Z.to_nat W) seen = drop (length seen - Z.to_nat W) seen)
    /\ bufidx s = Z.of_nat (length pending)
    /\ exists b, holds h (buffer s) b /\ take (length pending) b = pending.
Proof.
  intros HB HW Hm.
  destruct (run_exact W m B c xs HB HW Hm)
    as (s & rs & h & seen & pending & Hrun & Hat & Hall & Hmod & _).
  destruct Hat as (_ & _ & _ & Hdo & Hdl & Hbo & Hbl & _ & Hdata & (b & Hbuf & Hblen & Hbtake)
                   & Hidx & _).
  exists s, rs, h, seen, pending. split; [done|]. split; [done|]. split; [done|].
  split.
  { exists (window_after (Z.to_nat W) seen). unfold Stream_Window.
    rewrite Hdo, Hdl, drop_0. split; [done|].
    rewrite take_ge by (rewrite length_window_after; lia).
    split; [done|]. apply length_window_after. }
  split; [intros Hfull; apply window_after_full; lia|]. split; [done|].
  exists b. split; [|done]. exists b. rewrite Hbo, Hbl, drop_0. split; [done|].
  rewrite take_ge by lia. done.
Qed.

(** X2.  For such a stream and a number of pushes within [int], a push
    that completes a block when [windowSize] values or more were pushed
    returns what [Check] returns on the last [windowSize] values pushed, in
    order; every other push returns [nil]. *)
Theorem Push_checks_last_window W m B c xs :
  1 <= B <= W -> W <= int_max -> 0 <= m <= int_max ->
  Z.of_nat (length xs) <= int_max ->
  exists rs,
    stream_results Welch W m B c xs = Returns rs
    /\ length rs = length xs
    /\ forall (k : nat) r, rs !! k = Some r ->
         if ((Z.of_nat k + 1) mod B =? 0) && (W <=? Z.of_nat k + 1)
         then check_window Welch {| MinSampleSize := m; MinConfidence := c |}
                (drop (k + 1 - Z.to_nat W) (take (k + 1) xs)) = Returns r
         else r = None.
Proof.
  intros HB HW Hm Hxs.
  destruct (run_exact W m B c xs HB HW Hm)
    as (s & rs & h & seen & pending & Hrun & _ & _ & _ & Hlen & Hres).
  exists rs. rewrite stream_results_run, Hrun. split; [done|]. split; [done|].
  intros k r Hk. specialize (Hres k r Hk).
  assert (k < length xs)%nat as Hklt by (rewrite <- Hlen; by eapply lookup_lt_Some).
  rewrite wrap_id in Hres by (unfold is_int, int_min, int_max in *; lia).
  replace (Z.of_nat (k + 1)) with (Z.of_nat k + 1) in Hres by lia.
  rewrite <- Z.leb_antisym in Hres.
  destruct (((Z.of_nat k + 1) mod B =? 0) && (W <=? Z.of_nat k + 1)) eqn:Hcond; [|done].
  apply andb_true_iff in Hcond as [_ Hfull]. apply Z.leb_le in Hfull.
  rewrite check_window_detect, <- Hres. f_equal.
  rewrite window_after_full by (rewrite length_take; lia).
  rewrite length_take. do 2 f_equal. lia.
Qed.

End StreamTheorems.

(** ** The change point of [Check] *)

Lemma SFcompare_Eq_Lt x y z :
  SFcompare x y = Some Eq -> SFcompare y z = Some Lt -> SFcompare x z = Some Lt.
Proof. sf_cases x y z. Qed.

Lemma SFcompare_Eq_Eq x y z :
  SFcompare x y = Some Eq -> SFcompare y z = Some Eq -> SFcompare x z = Some Eq.
Proof. sf_cases x y z. Qed.

Lemma f64_leb_trans (x y z : float) :
  (x <=? y)%float = true -> (y <=? z)%float = true -> (x <=? z)%float = true.
Proof.
  rewrite !leb_Lt_Eq. intros [H|H] [H'|H'];
    eauto using SFcompare_Lt_Lt, SFcompare_Lt_Eq, SFcompare_Eq_Lt, SFcompare_Eq_Eq.
Qed.

(** No candidate of scatter above zero: the search ends as it began. *)
Lemma search_no_split w m :
  valid_window w -> 1 <= m <= int_max ->
  (forall l, candidate w m l -> (0 <? between_class_scatter w l)%float = false) ->
  search m w = Returns scan0.
Proof.
  intros Hw Hm Hzero.
  destruct (search_result w m Hw Hm) as (st & Hrun & [[-> _]|[(Hcand & Hpos & _) _]]).
  - done.
  - by rewrite (Hzero _ Hcand) in Hpos.
Qed.

Lemma change_point_scan0 Welch : change_point Welch scan0 = zero_change_point.
Proof. vm_compute. reflexivity. Qed.

(** X3.  With a negative [MinSampleSize], [Check] panics on every
    window: the first split length is negative and [cumsum[lidx]] is out of
    range ([n - MinSampleSize] being within [int]). *)
Theorem Check_negative_MinSampleSize_panics Welch d w :
  valid_window w -> MinSampleSize d < 0 ->
  Z.of_nat (length w) - MinSampleSize d < int_max ->
  check_window Welch d w = Panics
  /\ forall h s, holds h s w -> Detector_Check Welch d s h = Panics.
Proof.
  intros Hw Hneg Hrange.
  assert (detect Welch d w = Panics) as Hdet.
  { unfold detect, search, candidates, minSampleSize_of.
    rewrite (proj2 (Z.eqb_neq _ _)) by lia.
    unfold valid_window, int_max in *.
    rewrite int_sub_id by (unfold is_int, int_min, int_max; lia).
    rewrite int_add_id by (unfold is_int, int_min, int_max; lia).
    rewrite seqZ_cons by lia. cbn [fold_outcome]. unfold split_step.
    rewrite int_sub_id by (unfold is_int, int_min, int_max; lia).
    by rewrite at_index_out by lia. }
  split.
  - by rewrite check_window_detect.
  - intros h s Hh. by rewrite (Detector_Check_detect Welch d s h w Hh), Hdet.
Qed.

(** X4.  With a [MinConfidence] below zero, on a window where no
    candidate has a scatter above zero, [Check] does not return [nil]: it
    returns the change point whose fields are all zero. *)
Theorem Check_zero_change_point Welch d w :
  valid_detector d -> valid_window w ->
  (0 <=? MinConfidence d)%float = false ->
  (forall l, candidate w (minSampleSize_of d) l ->
     (0 <? between_class_scatter w l)%float = false) ->
  check_window Welch d w = Returns (Some zero_change_point).
Proof.
  intros Hd Hw Hc Hzero. pose proof (minSampleSize_of_pos d Hd) as Hm.
  rewrite check_window_detect. unfold detect.
  rewrite (search_no_split w _ Hw Hm Hzero). unfold conclude.
  fold (change_point Welch scan0).
  by rewrite confidence_scan0, Hc, change_point_scan0.
Qed.

(** X5.  A change point that [Check] returns is that zero change point
    (the threshold being below zero and no scatter above zero), or it
    splits the window at the earliest maximum of the scatter: [Index] is
    the length of [Before], the rest of the window is [After], both hold
    the minimum sample size or more, their means are the means of the two
    segments, [Difference] is the mean after minus the mean before, and
    [Confidence] is what [Welch] gives for them, not [<=] the threshold. *)
Theorem Check_change_point_splits_window Welch d w cp :
  valid_detector d -> valid_window w ->
  check_window Welch d w = Returns (Some cp) ->
  let m := minSampleSize_of d in
  (cp = zero_change_point
   /\ (0 <=? MinConfidence d)%float = false
   /\ forall l, candidate w m l -> (0 <? between_class_scatter w l)%float = false)
  \/ (earliest_maximum w m (Index cp)
      /\ Len (Before cp) = Index cp
      /\ Len (After cp) = Z.of_nat (length w) - Index cp
      /\ m <= Len (Before cp) /\ m <= Len (After cp)
      /\ Mean (Before cp) = mean_before w (Index cp)
      /\ Mean (After cp) = mean_after w (Index cp)
      /\ Difference cp = (Mean (After cp) - Mean (Before cp))%float
      /\ Confidence cp = Welch (Before cp) (After cp)
      /\ (Confidence cp <=? MinConfidence d)%float = false).
Proof.
  intros Hd Hw Hcheck m. pose proof (minSampleSize_of_pos d Hd) as Hm. fold m in Hm.
  rewrite check_window_detect in Hcheck. unfold detect in Hcheck. fold m in Hcheck.
  destruct (search_result w m Hw Hm) as (st & Hrun & Hst). rewrite Hrun in Hcheck.
  unfold conclude in Hcheck. fold (change_point Welch st) in Hcheck.
  destruct (confidence Welch st <=? MinConfidence d)%float eqn:Hle; [done|].
  injection Hcheck as <-.
  destruct Hst as [[-> Hnone]|[Hmax Heq]].
  - left. rewrite confidence_scan0 in Hle. by rewrite change_point_scan0.
  - right. pose proof Hmax as ([Hc1 Hc2] & _).
    destruct (winner_of_fields w (maxsbIdx st)) as (H1 & H2 & H3 & H4 & H5 & H6);
      [done|lia|].
    rewrite <- Heq in *.
    assert (confidence Welch st = Welch (before st) (after st)) as Hconf.
    { unfold confidence. by rewrite H3, (proj2 (Z.ltb_lt 0 (maxsbIdx st))) by lia. }
    cbn [change_point Index Before After Difference Confidence].
    rewrite H3, H4, H5, H6, Hconf in *.
    split; [done|]. split; [done|]. split; [done|]. split; [lia|]. split; [lia|].
    split; [done|]. split; [done|]. split; [done|]. split; done.
Qed.

(** X6.  When [Check] returns, the store holds the arrays it had and
    the two [Check] made, which hold at [i] the sum and the sum of squares
    of the elements [0..i] of the window, added in order. *)
Theorem Check_leaves_cumulative_sums Welch d s h w r h' :
  holds h s w ->
  Detector_Check Welch d s h = Returns (r, h') ->
  exists cs cq,
    h' = h ++ [cs; cq]
    /\ length cs = length w /\ length cq = length w
    /\ forall i : nat, (i < length w)%nat ->
         cs !! i = Some (sum_of (take (S i) w))
         /\ cq !! i = Some (sumsq_of (take (S i) w)).
Proof.
  intros Hh. rewrite (Detector_Check_detect Welch d s h w Hh).
  destruct (detect Welch d w) as [r'|]; [|done]. intros [= <- <-].
  exists (cumsum_of w), (cumsumsq_of w). split; [done|].
  split; [apply length_sums_from|]. split; [apply length_sums_from|].
  intros i Hi. split; by apply lookup_sums_from.
Qed.

(** X7.  [Check] is monotone in the threshold: a change point returned
    for [MinConfidence = c] is returned for every threshold [c' <= c]. *)
Theorem Check_lower_threshold_keeps_change_point Welch m (c c' : float64) w cp :
  (c' <=? c)%float = true ->
  check_window Welch {| MinSampleSize := m; MinConfidence := c |} w = Returns (Some cp) ->
  check_window Welch {| MinSampleSize := m; MinConfidence := c' |} w = Returns (Some cp).
Proof.
  rewrite !check_window_detect. unfold detect, minSampleSize_of. cbn [MinSampleSize].
  intros Hle. destruct (search _ w) as [st|]; [|done].
  unfold conclude. cbn [MinConfidence].
  destruct (confidence Welch st <=? c)%float eqn:Hc; [done|]. intros [= <-].
  destruct (confidence Welch st <=? c')%float eqn:Hc'; [|done].
  by rewrite (f64_leb_trans _ _ _ Hc' Hle) in Hc.
Qed.

(** ** Not a number *)

Lemma is_nan_spec (x : float) : is_nan x = true <-> Prim2SF x = S754_nan.
Proof.
  unfold is_nan. rewrite FloatAxioms.eqb_spec. unfold SFeqb.
  destruct (Prim2SF x) eqn:E; try (rewrite SFcompare_refl by done; cbn; split; done).
  cbn. done.
Qed.

Lemma add_nan_l (x y : float) : Prim2SF x = S754_nan -> Prim2SF (x + y) = S754_nan.
Proof. rewrite FloatAxioms.add_spec. intros ->. done. Qed.

Lemma add_nan_r (x y : float) : Prim2SF y = S754_nan -> Prim2SF (x + y) = S754_nan.
Proof. rewrite FloatAxioms.add_spec. intros ->. by destruct (Prim2SF x). Qed.

Lemma sub_nan_l (x y : float) : Prim2SF x = S754_nan -> Prim2SF (x - y) = S754_nan.
Proof. rewrite FloatAxioms.sub_spec. intros ->. done. Qed.

Lemma sub_nan_r (x y : float) : Prim2SF y = S754_nan -> Prim2SF (x - y) = S754_nan.
Proof. rewrite FloatAxioms.sub_spec. intros ->. by destruct (Prim2SF x). Qed.

Lemma mul_nan_l (x y : float) : Prim2SF x = S754_nan -> Prim2SF (x * y) = S754_nan.
Proof. rewrite FloatAxioms.mul_spec. intros ->. done. Qed.

Lemma mul_nan_r (x y : float) : Prim2SF y = S754_nan -> Prim2SF (x * y) = S754_nan.
Proof. rewrite FloatAxioms.mul_spec. intros ->. by destruct (Prim2SF x). Qed.

Lemma div_nan_l (x y : float) : Prim2SF x = S754_nan -> Prim2SF (x / y) = S754_nan.
Proof. rewrite FloatAxioms.div_spec. intros ->. done. Qed.

Lemma ltb_nan_r (x y : float) : Prim2SF y = S754_nan -> (x <? y)%float = false.
Proof. rewrite FloatAxioms.ltb_spec. intros ->. unfold SFltb. by destruct (Prim2SF x). Qed.

Lemma total_from_nan_acc term w : forall acc,
  Prim2SF acc = S754_nan -> Prim2SF (total_from term acc w) = S754_nan.
Proof.
  induction w as [|v w IH]; intros acc Hacc; cbn; [done|].
  apply IH. by apply add_nan_l.
Qed.

Lemma total_from_nan_elem term w x : forall acc,
  x ∈ w -> Prim2SF (term x) = S754_nan -> Prim2SF (total_from term acc w) = S754_nan.
Proof.
  induction w as [|v w IH]; intros acc Hx Hnan; [by apply elem_of_nil in Hx|].
  cbn. apply elem_of_cons in Hx as [<-|Hx].
  - apply total_from_nan_acc. by apply add_nan_r.
  - by apply IH.
Qed.

(** A value that is not a number makes every scatter not a number. *)
Lemma scatter_nan w x l :
  x ∈ w -> is_nan x = true -> Prim2SF (between_class_scatter w l) = S754_nan.
Proof.
  intros Hx Hnan. apply is_nan_spec in Hnan.
  unfold between_class_scatter. apply mul_nan_r, sub_nan_r.
  unfold mean_after. apply div_nan_l, sub_nan_l.
  unfold sum_of. by eapply total_from_nan_elem.
Qed.

(** X9.  On a window that holds a value that is not a number, no
    candidate wins the search, and [Check] returns [nil] for every
    threshold that is not negative. *)
Theorem Check_window_with_NaN Welch d w x :
  valid_detector d -> valid_window w ->
  (0 <=? MinConfidence d)%float = true ->
  x ∈ w -> is_nan x = true ->
  search (minSampleSize_of d) w = Returns scan0
  /\ check_window Welch d w = Returns None.
Proof.
  intros Hd Hw Hc Hx Hnan. pose proof (minSampleSize_of_pos d Hd) as Hm.
  assert (search (minSampleSize_of d) w = Returns scan0) as Hrun.
  { apply search_no_split; [done|done|]. intros l _.
    apply ltb_nan_r. by eapply scatter_nan. }
  split; [done|]. rewrite check_window_detect. unfold detect.
  by rewrite Hrun, conclude_scan0.
Qed.

(** ** Signs *)

Lemma binary_round_aux_signed s m e l :
  sf_signed s (binary_round_aux prec emax s m e l).
Proof.
  unfold binary_round_aux.
  destruct (shr_fexp prec emax m e l) as [mrs' e'].
  destruct (shr_fexp prec emax _ e' loc_Exact) as [mrs'' e''].
  destruct (shr_m mrs''); [done| |done].
  by destruct (e'' <=? emax - prec).
Qed.

Lemma binary_round_signed s m e : sf_signed s (binary_round prec emax s m e).
Proof.
  unfold binary_round. destruct (shl_align m e _) as [mz ez].
  apply binary_round_aux_signed.
Qed.

Lemma SF64mul_signed sx sy x y :
  sf_signed sx x -> sf_signed sy y -> sf_signed (xorb sx sy) (SF64mul x y).
Proof.
  destruct x as [?|?| |? ? ?], y as [?|?| |? ? ?]; cbn; intros; subst; try done.
  apply binary_round_aux_signed.
Qed.

Lemma SF64div_signed sx sy x y :
  sf_signed sx x -> sf_signed sy y -> sf_signed (xorb sx sy) (SF64div x y).
Proof.
  destruct x as [?|?| |? mx ex], y as [?|?| |? my ey]; cbn; intros; subst; try done.
  destruct (SFdiv_core_binary prec emax (Z.pos mx) ex (Z.pos my) ey) as [[mz ez] lz].
  apply binary_round_aux_signed.
Qed.

Lemma SF64add_signed_false x y :
  sf_signed false x -> sf_signed false y -> sf_signed false (SF64add x y).
Proof.
  destruct x as [?|?| |? mx ex], y as [?|?| |? my ey]; cbn; intros; subst; try done.
  apply binary_round_signed.
Qed.

Lemma sf_signed_any x : exists s, sf_signed s x.
Proof. destruct x as [s|s| |s ? ?]; cbn; eauto. exists false. done. Qed.

Lemma SFltb_signed_false x :
  sf_signed false x -> SFltb x (S754_zero false) = false.
Proof. destruct x as [?|?| |? ? ?]; cbn; intros; subst; done. Qed.

(** The conversion of an [int] that is not negative. *)
Lemma Prim2SF_float_of_int l :
  0 <= l <= int_max ->
  Prim2SF (float_of_int l) = binary_normalize prec emax l 0 false.
Proof.
  intros Hl. unfold float_of_int.
  assert (Uint63.to_Z (Uint63.of_Z l) = l) as Hto.
  { rewrite Uint63.of_Z_spec. apply Z.mod_small. unfold int_max in Hl.
    change Uint63.wB with (2 ^ 63). lia. }
  rewrite <- Hto at 1. rewrite <- FloatAxioms.of_uint63_spec, SF2Prim_Prim2SF.
  by rewrite FloatAxioms.of_uint63_spec, Hto.
Qed.

Lemma float_of_int_signed l :
  0 <= l <= int_max -> sf_signed false (Prim2SF (float_of_int l)).
Proof.
  intros Hl. rewrite Prim2SF_float_of_int by done.
  destruct l as [|p|p]; [done| |lia]. apply binary_round_signed.
Qed.

(** X8.  The scatter [sb] of a split length [0 <= l <= n] is never
    below zero, whatever the sums are: it is a number not below zero, or
    not a number. *)
Theorem scatter_never_negative n (sum : float64) l (c : float64) :
  n <= int_max -> 0 <= l <= n ->
  (scatter n sum l c <? 0)%float = false.
Proof.
  intros Hn Hl. unfold scatter.
  rewrite int_sub_id by (unfold is_int, int_min, int_max in *; lia).
  set (n1 := float_of_int l). set (n2 := float_of_int (n - l)).
  set (dm := (c / n1 - (sum - c) / n2)%float).
  assert (sf_signed false (Prim2SF n1)) as H1 by (apply float_of_int_signed; lia).
  assert (sf_signed false (Prim2SF n2)) as H2 by (apply float_of_int_signed; lia).
  destruct (sf_signed_any (Prim2SF dm)) as [s Hs].
  rewrite FloatAxioms.ltb_spec, !FloatAxioms.mul_spec, FloatAxioms.div_spec,
    FloatAxioms.mul_spec, FloatAxioms.add_spec.
  change (Prim2SF 0) with (S754_zero false).
  apply SFltb_signed_false.
  replace false with (xorb (xorb (xorb (xorb false false) false) s) s) by (by destruct s).
  apply SF64mul_signed; [|done]. apply SF64mul_signed; [|done].
  apply SF64div_signed.
  - by apply (SF64mul_signed false false).
  - by apply SF64add_signed_false.
Qed.

(** ** Square roots *)

Lemma shr_1_nonneg mrs : 0 <= shr_m mrs -> 0 <= shr_m (shr_1 mrs).
Proof. destruct mrs as [[|[p|p|]|[p|p|]] r s]; cbn; lia. Qed.

Lemma iter_pos_shr_1_nonneg p : forall mrs,
  0 <= shr_m mrs -> 0 <= shr_m (SpecFloat.iter_pos shr_1 p mrs).
Proof.
  induction p as [p IH|p IH|]; intros mrs Hm; cbn.
  - by apply IH, IH, shr_1_nonneg.
  - by apply IH, IH.
  - by apply shr_1_nonneg.
Qed.

Lemma shr_fexp_nonneg m e l :
  0 <= m -> 0 <= shr_m (fst (shr_fexp prec emax m e l)).
Proof.
  intros Hm. unfold shr_fexp, shr.
  assert (0 <= shr_m (shr_record_of_loc m l)) as H0 by (by destruct l as [|[]]).
  destruct (fexp prec emax (Zdigits2 m + e) - e) as [|p|p]; cbn [fst]; try done.
  by apply iter_pos_shr_1_nonneg.
Qed.

Lemma round_nearest_even_nonneg m l : 0 <= m -> 0 <= round_nearest_even m l.
Proof.
  intros Hm. destruct l as [|[]]; cbn; try lia. destruct (Z.even m); lia.
Qed.

Lemma binary_round_aux_number s m e l :
  0 <= m -> binary_round_aux prec emax s m e l <> S754_nan.
Proof.
  intros Hm. unfold binary_round_aux.
  pose proof (shr_fexp_nonneg m e l Hm) as H1.
  destruct (shr_fexp prec emax m e l) as [mrs' e']. cbn [fst] in H1.
  pose proof (shr_fexp_nonneg (round_nearest_even (shr_m mrs') (loc_of_shr_record mrs'))
                e' loc_Exact (round_nearest_even_nonneg _ _ H1)) as H2.
  destruct (shr_fexp prec emax _ e' loc_Exact) as [mrs'' e'']. cbn [fst] in H2.
  destruct (shr_m mrs''); [done| |lia].
  by destruct (e'' <=? emax - prec).
Qed.

Lemma SF64sqrt_nan x :
  SF64sqrt x = S754_nan <-> x = S754_nan \/ SFltb x (S754_zero false) = true.
Proof.
  destruct x as [s|s| |s m e]; cbn.
  - split; [done|]. by intros [|].
  - destruct s; cbn; split; try done; auto. by intros [|].
  - split; auto.
  - destruct s; cbn; [split; auto|].
    split; [|by intros [|]].
    unfold SFsqrt_core_binary.
    set (m' := match e - 2 * _ with Z.pos _ => _ | _ => _ end).
    assert (0 <= m') as Hm'.
    { unfold m'. destruct (e - 2 * _); try lia. apply Z.shiftl_nonneg. lia. }
    pose proof (Z.sqrtrem_spec m' Hm') as Hsq.
    destruct (Z.sqrtrem m') as [q r]. intros Hnan. exfalso.
    revert Hnan. apply binary_round_aux_number. lia.
Qed.

(** X10.  [Stddev] is not a number exactly when the variance is not a
    number or is below zero. *)
Theorem Stddev_nan_iff (s : Stats) :
  is_nan (Stddev s) = true
  <-> is_nan (Var s) = true \/ (Var s <? 0)%float = true.
Proof.
  unfold Stddev. rewrite !is_nan_spec, sqrt_spec, ltb_spec.
  change (Prim2SF 0) with (S754_zero false). apply SF64sqrt_nan.
Qed.

(** ** The test *)

Lemma check_case_steady Welch : check_case Welch test_steady 0 = Passes.
Proof.
  unfold check_case. rewrite check_window_detect.
  assert (search 5 test_steady = Returns scan0) as Hrun by (vm_compute; reflexivity).
  unfold detect. change (minSampleSize_of test_detector) with 5. rewrite Hrun.
  reflexivity.
Qed.

Lemma check_case_step Welch :
  check_case Welch test_step 10
  = if (Welch (before (winner_of test_step 11)) (after (winner_of test_step 11)) <=? 0)%float
    then Crashes else Fails.
Proof.
  unfold check_case. rewrite check_window_detect.
  assert (search 5 test_step = Returns (winner_of test_step 11)) as Hrun
    by (vm_compute; reflexivity).
  unfold detect. change (minSampleSize_of test_detector) with 5. rewrite Hrun.
  unfold conclude.
  change (confidence Welch (winner_of test_step 11))
    with (Welch (before (winner_of test_step 11)) (after (winner_of test_step 11))).
  change (MinConfidence test_detector) with 0%float.
  destruct (Welch _ _ <=? 0)%float; [reflexivity|].
  cbn [Index Confidence maxsbIdx winner_of winner].
  change (11 =? 10) with false. rewrite andb_false_r, andb_false_r. reflexivity.
Qed.

(** X11.  Whatever [onlinestats.Welch] returns, the first case of
    [TestDetectChange] passes and the second does not: [Check] places the
    change of eleven ones followed by twelve twos at index 11, the test
    wants 10, so the case fails, or dereferences a [nil] result when the
    confidence is not above zero. *)
Theorem TestDetectChange_cannot_pass Welch :
  exists second third,
    TestDetectChange Welch = [Passes; second; third]
    /\ second <> Passes
    /\ (second = Crashes <->
        (Welch (before (winner_of test_step 11)) (after (winner_of test_step 11))
           <=? 0)%float = true).
Proof.
  eexists _, _. unfold TestDetectChange.
  rewrite check_case_steady, check_case_step. split; [reflexivity|].
  destruct (Welch _ _ <=? 0)%float; split; try done.
Qed.

(** ** Instances *)

Lemma Window_holds_last_values_witness :
  exists s rs h seen pending,
    stream_run (fixed_confidence 0.99) 4 1 2 0.8 [1; 2; 3; 4; 5; 6; 7]%float
    = Returns ((s, rs), h)
    /\ seen ++ pending = [1; 2; 3; 4; 5; 6; 7]%float
    /\ Z.of_nat (length pending) = 7 mod 2
    /\ holds h (Stream_Window s) (window_after 4 seen)
    /\ (4 <= Z.of_nat (length seen) ->
        window_after 4 seen = drop (length seen - 4) seen)
    /\ bufidx s = Z.of_nat (length pending)
    /\ exists b, holds h (buffer s) b /\ take (length pending) b = pending.
Proof.
  apply (Window_holds_last_values (fixed_confidence 0.99) 4 1 2 0.8
           [1; 2; 3; 4; 5; 6; 7]%float).
  - lia.
  - unfold int_max. lia.
  - unfold int_max. lia.
Defined.

Lemma Push_checks_last_window_witness :
  exists rs,
    stream_results (fixed_confidence 0.99) 4 1 2 0.8 [1; 2; 3; 4; 5; 6; 7]%float
    = Returns rs
    /\ length rs = 7%nat
    /\ forall (k : nat) r, rs !! k = Some r ->
         if ((Z.of_nat k + 1) mod 2 =? 0) && (4 <=? Z.of_nat k + 1)
         then check_window (fixed_confidence 0.99)
                {| MinSampleSize := 1; MinConfidence := 0.8 |}
                (drop (k + 1 - 4) (take (k + 1) [1; 2; 3; 4; 5; 6; 7]%float)) = Returns r
         else r = None.
Proof.
  apply (Push_checks_last_window (fixed_confidence 0.99) 4 1 2 0.8
           [1; 2; 3; 4; 5; 6; 7]%float).
  - lia.
  - unfold int_max. lia.
  - unfold int_max. lia.
  - unfold int_max. cbn. lia.
Defined.

Lemma Check_negative_MinSampleSize_panics_witness :
  check_window (fixed_confidence 0.99) negative_sample_detector all_ones = Panics
  /\ forall h s, holds h s all_ones ->
       Detector_Check (fixed_confidence 0.99) negative_sample_detector s h = Panics.
Proof.
  apply (Check_negative_MinSampleSize_panics (fixed_confidence 0.99)
           negative_sample_detector all_ones).
  - short_window.
  - cbn. lia.
  - vm_compute. reflexivity.
Defined.

Lemma Check_zero_change_point_witness :
  check_window (fixed_confidence 0.99) negative_confidence_detector all_ones
  = Returns (Some zero_change_point).
Proof.
  apply (Check_zero_change_point (fixed_confidence 0.99) negative_confidence_detector
           all_ones).
  - unfold valid_detector, int_max. cbn. lia.
  - short_window.
  - vm_compute. reflexivity.
  - intros l Hl.
    destruct (all_ones_candidate l Hl)
      as [->|[->|[->|[->|[->|[->|[->|[->|[->|[->|[->|[->|[->| ->]]]]]]]]]]]]];
      vm_compute; reflexivity.
Defined.

Lemma scatter_never_negative_witness :
  (scatter 20 (sum_of ones_then_twos) 10 (prefix_sum ones_then_twos 10) <? 0)%float
  = false.
Proof.
  apply (scatter_never_negative 20 (sum_of ones_then_twos) 10
           (prefix_sum ones_then_twos 10)); unfold int_max; lia.
Defined.

Lemma Check_change_point_splits_window_witness :
  let cp := change_point (fixed_confidence 0.99) (winner_of ones_then_twos 10) in
  (cp = zero_change_point
   /\ (0 <=? 0.8)%float = false
   /\ forall l, candidate ones_then_twos 5 l ->
        (0 <? between_class_scatter ones_then_twos l)%float = false)
  \/ (earliest_maximum ones_then_twos 5 (Index cp)
      /\ Len (Before cp) = Index cp
      /\ Len (After cp) = 20 - Index cp
      /\ 5 <= Len (Before cp) /\ 5 <= Len (After cp)
      /\ Mean (Before cp) = mean_before ones_then_twos (Index cp)
      /\ Mean (After cp) = mean_after ones_then_twos (Index cp)
      /\ Difference cp = (Mean (After cp) - Mean (Before cp))%float
      /\ Confidence cp = fixed_confidence 0.99 (Before cp) (After cp)
      /\ (Confidence cp <=? 0.8)%float = false).
Proof.
  apply (Check_change_point_splits_window (fixed_confidence 0.99) example_detector
           ones_then_twos
           (change_point (fixed_confidence 0.99) (winner_of ones_then_twos 10))).
  - exact example_detector_valid.
  - short_window.
  - vm_compute. reflexivity.
Defined.

Lemma Check_leaves_cumulative_sums_witness :
  exists cs cq,
    [ones_then_twos; cumsum_of ones_then_twos; cumsumsq_of ones_then_twos]
    = [ones_then_twos] ++ [cs; cq]
    /\ length cs = length ones_then_twos /\ length cq = length ones_then_twos
    /\ forall i : nat, (i < length ones_then_twos)%nat ->
         cs !! i = Some (sum_of (take (S i) ones_then_twos))
         /\ cq !! i = Some (sumsq_of (take (S i) ones_then_twos)).
Proof.
  apply (Check_leaves_cumulative_sums (fixed_confidence 0.99) example_detector
           {| arr := 0%nat; off := 0; len := 20 |} [ones_then_twos] ones_then_twos
           (Some (change_point (fixed_confidence 0.99) (winner_of ones_then_twos 10)))
           [ones_then_twos; cumsum_of ones_then_twos; cumsumsq_of ones_then_twos]
           (holds_only ones_then_twos)).
  vm_compute. reflexivity.
Defined.

Lemma Check_lower_threshold_keeps_change_point_witness :
  check_window (fixed_confidence 0.99) {| MinSampleSize := 5; MinConfidence := 0.5 |}
    ones_then_twos
  = Returns (Some (change_point (fixed_confidence 0.99) (winner_of ones_then_twos 10))).
Proof.
  apply (Check_lower_threshold_keeps_change_point (fixed_confidence 0.99) 5 0.8 0.5
           ones_then_twos).
  - vm_compute. reflexivity.
  - vm_compute. reflexivity.
Defined.

Lemma Check_window_with_NaN_witness :
  search 5 ones_nan_twos = Returns scan0
  /\ check_window (fixed_confidence 0.99) example_detector ones_nan_twos = Returns None.
Proof.
  apply (Check_window_with_NaN (fixed_confidence 0.99) example_detector ones_nan_twos nan).
  - exact example_detector_valid.
  - short_window.
  - vm_compute. reflexivity.
  - apply elem_of_app. right. constructor.
  - reflexivity.
Defined.
